(** * Rewiki: article generation, revision analysis and the article session

    A shallow embedding of the generation / revision pipeline of the Rewiki
    client (services/geminiService.ts, components/ArticleView.tsx, App.tsx,
    types.ts) together with the properties the specification states about it.

    Conventions.
    - A JavaScript string is the list of its UTF-16 code units ([jsstring]).
    - The values produced by [JSON.parse] are the dynamic values of type
      [JSON]; the service layer works on them without any schema validation,
      exactly as the source does.  The view layer (ArticleView, App) is typed
      by the interfaces of types.ts and is modelled on the corresponding
      records.
    - Everything the program obtains from outside (the replies of the hosted
      model, the clock, the locale date) is supplied by an explicit
      environment; platform operations that are not code of this repository
      ([JSON.parse], [JSON.stringify], the numeric coercion [ToNumber]) are
      the methods of the class [Platform].
    - Records are values.  Where the program depends on two places holding
      one object (the article shown and the entry of the history), the
      section objects are kept by address in a memory. *)

From Stdlib Require Import ZArith NArith List Ascii String Floats.SpecFloat.
From stdpp Require Import base list gmap strings pretty.

Local Open Scope Z_scope.

(** ** JavaScript strings *)

Module JsString.

(** A string is its sequence of UTF-16 code units. *)
Definition jsstring : Type := list N.

(** Embedding of an ASCII literal. *)
Definition js (s : string) : jsstring :=
  map N_of_ascii (list_ascii_of_string s).

(** [WhiteSpace] and [LineTerminator] of ECMA-262: the characters matched
    by the regular-expression class [\s] and removed by
    [String.prototype.trim]. *)
Definition is_ws (c : N) : bool :=
  ((9 <=? c) && (c <=? 13))%N        (* TAB LF VT FF CR *)
  || (c =? 32)%N                      (* SP *)
  || (c =? 160)%N                     (* NBSP *)
  || (c =? 5760)%N                    (* U+1680 *)
  || ((8192 <=? c) && (c <=? 8202))%N (* U+2000 .. U+200A *)
  || (c =? 8232)%N || (c =? 8233)%N   (* LS PS *)
  || (c =? 8239)%N || (c =? 8287)%N   (* U+202F U+205F *)
  || (c =? 12288)%N                   (* U+3000 *)
  || (c =? 65279)%N.                  (* U+FEFF *)

(** Greedy [\s*] at the head of a string: what is left after it. *)
Fixpoint skip_ws (s : jsstring) : jsstring :=
  match s with
  | c :: s' => if is_ws c then skip_ws s' else s
  | [] => []
  end.

(** [\s*] at the tail of a string. *)
Definition skip_ws_end (s : jsstring) : jsstring := rev (skip_ws (rev s)).

(** [String.prototype.trim]. *)
Definition trim (s : jsstring) : jsstring := skip_ws_end (skip_ws s).

(** [strip_prefix p s] is [Some r] when [s = p ++ r]. *)
Fixpoint strip_prefix (p s : jsstring) : option jsstring :=
  match p, s with
  | [], _ => Some s
  | a :: p', b :: s' => if (a =? b)%N then strip_prefix p' s' else None
  | _ :: _, [] => None
  end.

(** Canonicalisation of a code unit under the [i] flag (no [u] flag),
    restricted to what the letters of the pattern need: an ASCII lower-case
    letter is compared through its upper-case form; no code unit outside
    ASCII canonicalises to an ASCII letter. *)
Definition canonicalize (c : N) : N :=
  if ((97 <=? c) && (c <=? 122))%N then (c - 32)%N else c.

(** Case-insensitive variant of [strip_prefix]. *)
Fixpoint strip_prefix_ci (p s : jsstring) : option jsstring :=
  match p, s with
  | [], _ => Some s
  | a :: p', b :: s' =>
      if (canonicalize a =? canonicalize b)%N then strip_prefix_ci p' s' else None
  | _ :: _, [] => None
  end.

(** [String.prototype.includes]: [t] occurs in [s] as a contiguous run. *)
Fixpoint includes (s t : jsstring) : bool :=
  match strip_prefix t s with
  | Some _ => true
  | None => match s with
            | [] => false
            | _ :: s' => includes s' t
            end
  end.

(** [Number.prototype.toString] on an integer in the range of [Date.now()]:
    the decimal digits, with a leading minus sign below zero. *)
Definition toString (n : Z) : jsstring := js (pretty n).

End JsString.
Export JsString.

(** ** JSON values *)

(** The result of [JSON.parse].  An array is an object too: the assignment of
    a named property to it succeeds, hence the second component. *)
#[local] Unset Elimination Schemes.
Inductive JSON : Type :=
  | JNull
  | JBool (b : bool)
  | JNum (x : spec_float)
  | JStr (s : jsstring)
  | JArr (elems : list JSON) (props : gmap jsstring JSON)
  | JObj (props : gmap jsstring JSON).
#[local] Set Elimination Schemes.

(** ** Fence stripping (geminiService.ts, [cleanJson]) *)

Definition fence : jsstring := js "```".

(** [text.replace(/^```json\s*/i, '')] *)
Definition strip_json_fence (text : jsstring) : jsstring :=
  match strip_prefix fence text with
  | Some r => match strip_prefix_ci (js "json") r with
              | Some r' => skip_ws r'
              | None => text
              end
  | None => text
  end.

(** [text.replace(/^```\s*/, '')] *)
Definition strip_open_fence (text : jsstring) : jsstring :=
  match strip_prefix fence text with
  | Some r => skip_ws r
  | None => text
  end.

(** [text.replace(/\s*```$/, '')]: the pattern is searched from the left, so
    the match starts at the first position from which only white space and
    the final fence follow, that is, it takes the final fence together with
    the whole run of white space before it. *)
Definition strip_close_fence (text : jsstring) : jsstring :=
  match strip_prefix fence (rev text) with
  | Some r => rev (skip_ws r)
  | None => text
  end.

Definition cleanJson (text : jsstring) : jsstring :=
  trim (strip_close_fence (strip_open_fence (strip_json_fence text))).

(** A reply wrapped in a code fence: the opening fence, an optional language
    tag, white space (usually a line break), the payload, white space and
    the closing fence. *)
Definition fenced (tag w1 P w2 : jsstring) : jsstring :=
  fence ++ tag ++ w1 ++ P ++ w2 ++ fence.

(** The tag of a [```json] fence, in any letter case. *)
Definition json_tag (tag : jsstring) : bool :=
  match strip_prefix_ci (js "json") tag with
  | Some [] => true
  | _ => false
  end.

Definition all_ws (w : jsstring) : bool := forallb is_ws w.

(** The characters a JSON text can begin with (after white space): the
    opening of an object, array or string, a sign or digit, or the first
    letter of [true], [false], [null]. *)
Definition json_first (c : N) : bool :=
  existsb (N.eqb c) (34%N :: js "{[-0123456789tfn").

(** The characters a JSON text can end with (before white space). *)
Definition json_last (c : N) : bool :=
  existsb (N.eqb c) (34%N :: js "}]0123456789el").

(** The outer shape every JSON text has: it is not blank, and its first and
    last significant characters are among the ones above. *)
Definition json_edges (P : jsstring) : bool :=
  match skip_ws P, skip_ws (rev P) with
  | c :: _, d :: _ => json_first c && json_last d
  | _, _ => false
  end.

(** ** Outcomes, requests and the effects of a service function *)

(** What a [throw] carries. *)
Inductive Exn : Type :=
  | Error (message : jsstring)      (* [new Error(message)] *)
  | SyntaxError                     (* raised by [JSON.parse] *)
  | TypeError                       (* property access on a non-object *)
  | ServiceError (detail : jsstring). (* rejection of the request by the SDK *)

Inductive Outcome (A : Type) : Type :=
  | Return (a : A)
  | Throw (e : Exn).
Arguments Return {A} a.
Arguments Throw {A} e.

(** types.ts *)
Inductive Language : Type := en | es.

Definition lang_tag (l : Language) : jsstring :=
  match l with en => js "en" | es => js "es" end.

Inductive EditType : Type := fix_ | add.

(** A request sent to the hosted model.  The fixed instruction text of each
    prompt is not reproduced; a request is identified by its kind and by the
    values interpolated into its prompt. *)
Inductive Request : Type :=
  | ArticleRequest (topic : jsstring) (lang : Language)
  | ImageRequest (subject : option JSON)
  | RevisionRequest (context selection request : jsstring)
                    (lang : Language) (editType : EditType).

(** A service function runs against the log of the requests made so far and
    either returns or throws. *)
Definition Run (A : Type) : Type := list Request → Outcome A * list Request.

#[global] Instance run_ret : MRet Run := λ A a log, (Return a, log).
#[global] Instance run_bind : MBind Run := λ A B k m log,
  match m log with
  | (Return a, log') => k a log'
  | (Throw e, log') => (Throw e, log')
  end.

Definition throw {A} (e : Exn) : Run A := λ log, (Throw e, log).

(** [try { m } catch (e) { h e }] *)
Definition try_catch {A} (m : Run A) (h : Exn → Run A) : Run A := λ log,
  match m log with
  | (Return a, log') => (Return a, log')
  | (Throw e, log') => h e log'
  end.

(** [await getAiClient().models.generateContent(request)]: the request is
    logged and the reply is the one the environment holds for it. *)
Definition generateContent {A} (req : Request) (reply : Outcome A) : Run A :=
  λ log, (reply, log ++ [req]).

(** ** Dynamic values *)

Definition is_zero_or_nan (x : spec_float) : bool :=
  match x with
  | S754_zero _ | S754_nan => true
  | _ => false
  end.

Definition positive_number (x : spec_float) : bool :=
  match x with
  | S754_finite false _ _ | S754_infinity false => true
  | _ => false
  end.

Definition nonempty (s : jsstring) : bool :=
  match s with [] => false | _ :: _ => true end.

(** [ToBoolean]; [None] is [undefined]. *)
Definition truthy (v : option JSON) : bool :=
  match v with
  | None | Some JNull => false
  | Some (JBool b) => b
  | Some (JNum x) => negb (is_zero_or_nan x)
  | Some (JStr s) => nonempty s
  | Some (JArr _ _) | Some (JObj _) => true
  end.

(** [d.k] for one of the property names used by the service ([k] is neither
    an array index nor [length]). *)
Definition get_prop (k : jsstring) (d : JSON) : option JSON :=
  match d with
  | JObj m | JArr _ m => m !! k
  | _ => None
  end.

(** [d.k = v] in strict code (every module is strict): a [TypeError] on
    [null] and on a primitive. *)
Definition assign (k : jsstring) (v : JSON) (d : JSON) : Run JSON :=
  match d with
  | JObj m => mret (JObj (<[k:=v]> m))
  | JArr l m => mret (JArr l (<[k:=v]> m))
  | _ => throw TypeError
  end.

(** [v[0]] on a value that is not [null]. *)
Definition index0 (v : JSON) : option JSON :=
  match v with
  | JArr l _ => head l
  | JStr s => (λ c, JStr [c]) <$> head s
  | JObj m => m !! js "0"
  | _ => None
  end.

(** ** The records of types.ts *)

Module ArticleSection.
Record t : Type := mk {
  id : jsstring;
  heading : jsstring;
  content : jsstring
}.
(** [{ ...s, content: c }] *)
Definition with_content (c : jsstring) (s : t) : t :=
  {| id := id s; heading := heading s; content := c |}.
End ArticleSection.

Module QuizQuestion.
Record t : Type := mk {
  question : jsstring;
  options : list jsstring;
  correctAnswer : Z
}.
End QuizQuestion.

Module RewikiArticle.
Record t : Type := mk {
  id : jsstring;
  topic : jsstring;
  summary : jsstring;
  sections : list ArticleSection.t;
  imagePrompts : list jsstring;
  generatedImage : option jsstring;
  realImageUrl : option jsstring;
  secondaryImageUrl : option jsstring;
  originalSnippet : jsstring;
  lastUpdated : jsstring;
  changeLog : jsstring;
  didYouKnow : jsstring;
  homeworkHelp : list jsstring;
  quiz : list QuizQuestion.t;
  relatedTopics : list jsstring;
  language : Language
}.
(** [{ ...article, sections: newSections, changeLog: log }] *)
Definition with_sections_changeLog
    (newSections : list ArticleSection.t) (log : jsstring) (a : t) : t :=
  {| id := id a; topic := topic a; summary := summary a;
     sections := newSections; imagePrompts := imagePrompts a;
     generatedImage := generatedImage a; realImageUrl := realImageUrl a;
     secondaryImageUrl := secondaryImageUrl a;
     originalSnippet := originalSnippet a; lastUpdated := lastUpdated a;
     changeLog := log; didYouKnow := didYouKnow a;
     homeworkHelp := homeworkHelp a; quiz := quiz a;
     relatedTopics := relatedTopics a; language := language a |}.
End RewikiArticle.

Module RevisionResult.
Record t : Type := mk {
  accepted : bool;
  newContent : option jsstring;
  reasoning : jsstring
}.
End RevisionResult.

(** Operations of the platform the program relies on. *)
Class Platform : Type := {
  (** [JSON.parse]; [None] when it raises [SyntaxError]. *)
  JSON_parse : jsstring → option JSON;
  (** The abstract operation [ToNumber]. *)
  ToNumber : JSON → spec_float;
  (** [JSON.stringify] on a list of articles. *)
  JSON_stringify : list RewikiArticle.t → jsstring
}.

(** ** The content generator (geminiService.ts) *)

(** The parts of an image reply, as far as the service reads them. *)
Record InlineData : Type := {
  mimeType : option jsstring;
  data : option jsstring
}.

Record Part : Type := { inlineData : option InlineData }.

(** A value interpolated into a template literal. *)
Definition interpolate (v : option jsstring) : jsstring :=
  default (js "undefined") v.

(** The loop of [generateTopicImage]: the data URI of the first part that
    carries inline data. *)
Fixpoint first_inline (ps : list Part) : option jsstring :=
  match ps with
  | [] => None
  | p :: ps' =>
      match inlineData p with
      | Some d => Some (js "data:" ++ interpolate (mimeType d)
                          ++ js ";base64," ++ interpolate (data d))
      | None => first_inline ps'
      end
  end.

(** [generateTopicImage(prompt)]; [reply] stands for
    [response.candidates?.[0]?.content?.parts]. *)
Definition generateTopicImage (prompt : option JSON)
    (reply : Outcome (option (list Part))) : Run (option jsstring) :=
  try_catch
    (parts ← generateContent (ImageRequest prompt) reply;
     mret (first_inline (default [] parts)))
    (λ e, mret None).

(** What one call of [generateRewikiArticle] obtains from outside. *)
Record GenEnv : Type := {
  text_reply : Outcome (option jsstring);  (* [response.text], or a rejection *)
  now : Z;                                 (* [Date.now()] *)
  today : jsstring;                        (* [new Date().toLocaleDateString()] *)
  image_reply : Outcome (option (list Part))
}.

(** [v.length > 0] on a truthy value. *)
Definition length_positive `{Platform} (v : JSON) : bool :=
  match v with
  | JArr l _ => match l with [] => false | _ :: _ => true end
  | JStr s => nonempty s
  | JObj m => match m !! js "length" with
              | Some w => positive_number (ToNumber w)
              | None => false
              end
  | _ => false
  end.

(** The statements of [generateRewikiArticle] that follow a successful
    parse, first part: identifier, language and date. *)
Definition stamp (lang : Language) (env : GenEnv) (data : JSON) : Run JSON :=
  data ← assign (js "id") (JStr (toString (now env))) data;
  data ← assign (js "language") (JStr (lang_tag lang)) data;
  if truthy (get_prop (js "lastUpdated") data) then mret data
  else assign (js "lastUpdated") (JStr (today env)) data.

(** Second part: the generated image. *)
Definition attach_image `{Platform} (env : GenEnv) (data : JSON) : Run JSON :=
  match get_prop (js "imagePrompts") data with
  | Some prompts =>
      if truthy (Some prompts) && length_positive prompts then
        image ← generateTopicImage (index0 prompts) (image_reply env);
        match image with
        | Some img => if nonempty img
                      then assign (js "generatedImage") (JStr img) data
                      else mret data
        | None => mret data
        end
      else mret data
  | None => mret data
  end.

Definition assemble `{Platform} (lang : Language) (env : GenEnv)
    (data : JSON) : Run JSON :=
  data ← stamp lang env data;
  attach_image env data.

Definition generateRewikiArticle `{Platform} (topic : jsstring)
    (lang : Language) (env : GenEnv) : Run JSON :=
  try_catch
    (text ← generateContent (ArticleRequest topic lang) (text_reply env);
     match text with
     | Some (c :: text') =>
         let cleanText := cleanJson (c :: text') in
         data ← match JSON_parse cleanText with
                | Some d => mret d
                | None => throw (Error (js "Invalid JSON response from AI"))
                end;
         assemble lang env data
     | _ => throw (Error (js "No content generated"))
     end)
    (λ error, throw error).

(** ** The revision analyzer (geminiService.ts) *)

Definition fallback_reasoning : jsstring :=
  js "AI Service unavailable or response invalid.".

(** [{ accepted: false, reasoning: "AI Service unavailable or response invalid." }] *)
Definition fallback_verdict : JSON :=
  JObj (<[js "accepted" := JBool false]>
        (<[js "reasoning" := JStr fallback_reasoning]> ∅)).

Definition analyzeRevision `{Platform}
    (currentText userSelection userRequest : jsstring) (lang : Language)
    (editType : EditType) (reply : Outcome (option jsstring)) : Run JSON :=
  try_catch
    (text ← generateContent
              (RevisionRequest (take 500 currentText) userSelection
                               userRequest lang editType) reply;
     match text with
     | Some (c :: text') =>
         match JSON_parse (cleanJson (c :: text')) with
         | Some v => mret v
         | None => throw SyntaxError
         end
     | _ => throw (Error (js "Analysis failed"))
     end)
    (λ e, mret fallback_verdict).

(** ** Applying a revision (ArticleView.tsx, [submitRevision]) *)

(** The text selection held by the view; its screen coordinates play no
    part in the revision. *)
Record Selection : Type := { text : jsstring }.

(** The note appended to the change log. *)
Definition edit_note (editType : EditType) : jsstring :=
  match editType with
  | add => js "Added section"
  | fix_ => js "Fixed info"
  end.

(** [result.newContent] when it is truthy. *)
Definition truthy_content (r : RevisionResult.t) : option jsstring :=
  match RevisionResult.newContent r with
  | Some (c :: s) => Some (c :: s)
  | _ => None
  end.

(** The function passed to [map] in the "fix" branch. *)
Definition fix_section (selection : option Selection) (r : RevisionResult.t)
    (s : ArticleSection.t) : ArticleSection.t :=
  match selection with
  | Some sel =>
      if includes (ArticleSection.content s) (text sel)
      then ArticleSection.with_content
             (default (ArticleSection.content s) (truthy_content r)) s
      else s
  | None => s
  end.

(** The computation of [newSections].  [newSections[0].content = ...] on an
    empty array raises [TypeError].  (Without a selection [map] returns the
    section objects of the article themselves, so that assignment also
    changes the first section of the article being replaced; only the
    published value is described here.) *)
Definition revised_sections (article : RewikiArticle.t)
    (selection : option Selection) (editType : EditType)
    (r : RevisionResult.t) (now : Z) : Outcome (list ArticleSection.t) :=
  match editType, truthy_content r with
  | add, Some c =>
      Return (RewikiArticle.sections article ++
              [ArticleSection.mk (toString now) (js "New Section") c])
  | _, _ =>
      let newSections := map (fix_section selection r)
                             (RewikiArticle.sections article) in
      match selection, truthy_content r, editType with
      | None, Some c, fix_ =>
          match newSections with
          | s0 :: rest => Return (ArticleSection.with_content c s0 :: rest)
          | [] => Throw TypeError
          end
      | _, _, _ => Return newSections
      end
  end.

(** The body of the timer callback of [submitRevision]: the article handed
    to [onUpdateArticle], or the exception that ends the callback before
    anything is published. *)
Definition apply_revision (article : RewikiArticle.t)
    (selection : option Selection) (editType : EditType)
    (r : RevisionResult.t) (now : Z) : Outcome RewikiArticle.t :=
  match revised_sections article selection editType r now with
  | Return newSections =>
      Return (RewikiArticle.with_sections_changeLog newSections
                (RewikiArticle.changeLog article ++ js " | " ++ edit_note editType)
                article)
  | Throw e => Throw e
  end.

(** [result.reasoning || "Revision Approved!"] *)
Definition approval_message (r : RevisionResult.t) : jsstring :=
  if nonempty (RevisionResult.reasoning r) then RevisionResult.reasoning r
  else js "Revision Approved!".

(** What the user sees after pressing the submit button. *)
Inductive Submission : Type :=
  | NotSubmitted
  | Approved (message : jsstring) (update : Outcome RewikiArticle.t)
  | Refused (message : jsstring)
  | ConnectionFailed (message : jsstring).

(** [submitRevision], given what [await analyzeRevision(...)] produced;
    [now] is the clock when the timer fires. *)
Definition submitRevision (article : RewikiArticle.t)
    (selection : option Selection) (editType : EditType)
    (revisionReason : jsstring) (verdict : Outcome RevisionResult.t)
    (now : Z) : Submission :=
  if nonempty (trim revisionReason) then
    match verdict with
    | Return result =>
        if RevisionResult.accepted result then
          Approved (approval_message result)
                   (apply_revision article selection editType result now)
        else Refused (RevisionResult.reasoning result)
    | Throw _ => ConnectionFailed (js "Connection failed. Try again.")
    end
  else NotSubmitted.

(** ** The history list (App.tsx) *)

Definition history_key : jsstring := js "rewiki_history".

Record AppState : Type := {
  history : list RewikiArticle.t;
  localStorage : gmap jsstring jsstring
}.

(** The state at start-up, before anything is loaded. *)
Definition initial (storage : gmap jsstring jsstring) : AppState :=
  {| history := []; localStorage := storage |}.

Definition addToHistory `{Platform} (article : RewikiArticle.t)
    (st : AppState) : AppState :=
  let filtered :=
    filter (λ a, RewikiArticle.topic a ≠ RewikiArticle.topic article)
           (history st) in
  let updated := take 10 (article :: filtered) in
  {| history := updated;
     localStorage :=
       <[history_key := JSON_stringify updated]> (localStorage st) |}.

(** The state after the insertions [arts], the oldest first. *)
Definition insert_all `{Platform} (arts : list RewikiArticle.t)
    (st : AppState) : AppState :=
  foldl (λ st a, addToHistory a st) st arts.

(** The specification's reading of the history, in its own words: the
    inserted articles, the most recent first, where of several insertions
    with one topic only the most recent is kept. *)
Fixpoint recent_first (newest_first : list RewikiArticle.t)
    : list RewikiArticle.t :=
  match newest_first with
  | [] => []
  | a :: older =>
      a :: filter (λ b, RewikiArticle.topic b ≠ RewikiArticle.topic a)
                  (recent_first older)
  end.

(** The environment [env] with the text reply replaced by [text]. *)
Definition reply_with (env : GenEnv) (text : jsstring) : GenEnv :=
  {| text_reply := Return (Some text);
     now := now env;
     today := today env;
     image_reply := image_reply env |}.

(** The value carries the clock reading of [env] as its identifier and [lang]
    as its language. *)
Definition stamped (lang : Language) (env : GenEnv) (d : JSON) : Prop :=
  get_prop (js "id") d = Some (JStr (toString (now env)))
  ∧ get_prop (js "language") d = Some (JStr (lang_tag lang)).

(** The identifier of the article a call returned, if it returned one. *)
Definition identifier_of (result : Outcome JSON * list Request) : option JSON :=
  match result.1 with
  | Return d => get_prop (js "id") d
  | Throw _ => None
  end.

(** ** Replies that cannot be used *)

(** The reply text is present, not empty, and what [cleanJson] leaves of it
    is accepted by [JSON.parse]. *)
Definition parses `{Platform} (text : option jsstring) : bool :=
  match text with
  | Some (c :: s) => bool_decide (is_Some (JSON_parse (cleanJson (c :: s))))
  | _ => false
  end.

(** The request went through and its text parses. *)
Definition usable `{Platform} (reply : Outcome (option jsstring)) : bool :=
  match reply with
  | Return text => parses text
  | Throw _ => false
  end.

(** ** A concrete platform and concrete replies, for the examples *)

Definition quoted (s : jsstring) : jsstring := 34%N :: s ++ [34%N].

(** The text of the JSON object with [topic] "Rome" and [language] "fr". *)
Definition rome_text : jsstring :=
  js "{" ++ quoted (js "topic") ++ js ":" ++ quoted (js "Rome") ++ js ","
         ++ quoted (js "language") ++ js ":" ++ quoted (js "fr") ++ js "}".

Definition rome_value : JSON :=
  JObj (<[js "topic" := JStr (js "Rome")]>
        (<[js "language" := JStr (js "fr")]> ∅)).

(** [JSON.parse] on the texts of the examples; every other text is
    rejected. *)
Definition sample_parse (s : jsstring) : option JSON :=
  if decide (s = rome_text) then Some rome_value
  else if decide (s = js "{}") then Some (JObj ∅)
  else None.

(** The value of a string of decimal digits. *)
Fixpoint decimal_digits (acc : Z) (s : jsstring) : option Z :=
  match s with
  | [] => Some acc
  | c :: s' =>
      if (48 <=? c)%N && (c <=? 57)%N
      then decimal_digits (10 * acc + Z.of_N (c - 48)) s'
      else None
  end.

(** [ToNumber] for the examples.  Numbers, booleans and [null] are read as
    JavaScript reads them, and so are, of the strings, the blank ones,
    which are zero, and the strings of decimal digits, rounded to the
    nearest number.  NaN stands for every other value: the examples hold no
    numeric literal of another form (with a sign, a fraction, an exponent,
    a radix prefix, or "Infinity") and no array or object where a number is
    read. *)
Definition sample_ToNumber (v : JSON) : spec_float :=
  match v with
  | JNum x => x
  | JBool true => S754_finite false 1 0
  | JBool false | JNull => S754_zero false
  | JStr s =>
      match trim s with
      | [] => S754_zero false
      | c :: t =>
          match decimal_digits 0 (c :: t) with
          | Some n => binary_normalize 53 1024 n 0 false
          | None => S754_nan
          end
      end
  | _ => S754_nan
  end.

(** A serialisation of a history that keeps the topics. *)
Definition sample_stringify (l : list RewikiArticle.t) : jsstring :=
  js "[" ++ concat (map (λ a, quoted (RewikiArticle.topic a)) l) ++ js "]".

Definition sample_platform : Platform :=
  {| JSON_parse := sample_parse;
     ToNumber := sample_ToNumber;
     JSON_stringify := sample_stringify |}.

(** An environment whose text reply is [text] at clock reading [t]; the
    image request is rejected. *)
Definition sample_env (text : jsstring) (t : Z) : GenEnv :=
  {| text_reply := Return (Some text);
     now := t;
     today := js "11/2/2026";
     image_reply := Throw (ServiceError (js "offline")) |}.

(** An article with two sections, and verdicts on it. *)
Definition sec_history : ArticleSection.t :=
  ArticleSection.mk (js "s1") (js "History") (js "Rome was founded in 753 BC.").

Definition sec_geography : ArticleSection.t :=
  ArticleSection.mk (js "s2") (js "Geography") (js "Rome lies on the Tiber.").

Definition sample_article : RewikiArticle.t :=
  {| RewikiArticle.id := js "1700000000000";
     RewikiArticle.topic := js "Rome";
     RewikiArticle.summary := js "Rome is the capital of Italy.";
     RewikiArticle.sections := [sec_history; sec_geography];
     RewikiArticle.imagePrompts := [js "The skyline of Rome"];
     RewikiArticle.generatedImage := None;
     RewikiArticle.realImageUrl := None;
     RewikiArticle.secondaryImageUrl := None;
     RewikiArticle.originalSnippet := js "Rome is a city of great antiquity.";
     RewikiArticle.lastUpdated := js "11/2/2026";
     RewikiArticle.changeLog := js "Shortened";
     RewikiArticle.didYouKnow := js "Rome has more than 2000 fountains.";
     RewikiArticle.homeworkHelp := [];
     RewikiArticle.quiz := [];
     RewikiArticle.relatedTopics := [js "Italy"];
     RewikiArticle.language := en |}.

Definition accepted_with (c : option jsstring) : RevisionResult.t :=
  {| RevisionResult.accepted := true;
     RevisionResult.newContent := c;
     RevisionResult.reasoning := js "The change is accurate." |}.

(** The sample article under another topic and identifier. *)
Definition article_on (t : jsstring) (ident : Z) : RewikiArticle.t :=
  {| RewikiArticle.id := toString ident;
     RewikiArticle.topic := t;
     RewikiArticle.summary := RewikiArticle.summary sample_article;
     RewikiArticle.sections := RewikiArticle.sections sample_article;
     RewikiArticle.imagePrompts := [];
     RewikiArticle.generatedImage := None;
     RewikiArticle.realImageUrl := None;
     RewikiArticle.secondaryImageUrl := None;
     RewikiArticle.originalSnippet := [];
     RewikiArticle.lastUpdated := js "11/2/2026";
     RewikiArticle.changeLog := [];
     RewikiArticle.didYouKnow := [];
     RewikiArticle.homeworkHelp := [];
     RewikiArticle.quiz := [];
     RewikiArticle.relatedTopics := [];
     RewikiArticle.language := en |}.

(** Twelve insertions on eleven topics: "A" is inserted first and third. *)
Definition twelve_insertions : list RewikiArticle.t :=
  [article_on (js "A") 1; article_on (js "B") 2; article_on (js "A") 3;
   article_on (js "C") 4; article_on (js "D") 5; article_on (js "E") 6;
   article_on (js "F") 7; article_on (js "G") 8; article_on (js "H") 9;
   article_on (js "I") 10; article_on (js "J") 11; article_on (js "K") 12].

(** * Further parts of the program *)

(** ** The client handle (geminiService.ts, [getAiClient]) *)

(** What the access to [process.env.API_KEY] meets. *)
Inductive ProcessEnv : Type :=
  | NoProcess                        (* [typeof process === 'undefined'] *)
  | NoEnv                            (* [typeof process.env === 'undefined'] *)
  | Env (API_KEY : option jsstring)  (* the variable, if it is set *)
  | EnvThrows.                       (* the access raises *)

(** The client, as far as this file determines it. *)
Record GoogleGenAI : Type := { apiKey : jsstring }.

(** The value of [apiKey] after the guarded access; [process.env.API_KEY || ''].
    An exception is caught and leaves the initial [''] in place. *)
Definition read_api_key (p : ProcessEnv) : jsstring :=
  match p with
  | Env (Some k) => k
  | _ => []
  end.

(** [getAiClient()]: the module variable [aiClient] goes in and out. *)
Definition getAiClient (p : ProcessEnv) (aiClient : option GoogleGenAI)
    : GoogleGenAI * option GoogleGenAI :=
  match aiClient with
  | Some client => (client, Some client)
  | None =>
      let client := {| apiKey := read_api_key p |} in
      (client, Some client)
  end.

(** ** The image step of the generator *)

(** The argument of [generateTopicImage] when the generator calls it, that
    is, when [data.imagePrompts && data.imagePrompts.length > 0] holds. *)
Definition image_prompt `{Platform} (data : JSON) : option (option JSON) :=
  match get_prop (js "imagePrompts") data with
  | Some prompts =>
      if truthy (Some prompts) && length_positive prompts
      then Some (index0 prompts)
      else None
  | None => None
  end.

(** ** The text selection (ArticleView.tsx, [handleSelection]) *)

(** What [window.getSelection()] shows at a [mouseup]; [inside_article] is
    the result of the containment test against the article content. *)
Record DomSelection : Type := {
  isCollapsed : bool;
  selected_text : jsstring;       (* [activeSelection.toString()] *)
  rangeCount : nat;
  inside_article : bool
}.

(** [handleSelection], from the selection the view holds to the one it holds
    afterwards. *)
Definition handleSelection (activeSelection : option DomSelection)
    (held : option Selection) : option Selection :=
  match activeSelection with
  | Some a =>
      if negb (isCollapsed a) && (5 <? length (selected_text a))%nat
         && (0 <? rangeCount a)%nat
      then if inside_article a
           then Some {| text := selected_text a |}
           else held
      else None
  | None => None
  end.

(** ** The quiz (ArticleView.tsx) *)

(** [handleQuizOption]: [{ ...prev, [qIndex]: oIndex }]. *)
Definition handleQuizOption (qIndex oIndex : nat) (quizState : gmap nat nat)
    : gmap nat nat :=
  <[qIndex := oIndex]> quizState.

(** [quizState[qIndex] !== undefined && quizState[qIndex] !== null] *)
Definition showResult (quizState : gmap nat nat) (qIndex : nat) : bool :=
  bool_decide (is_Some (quizState !! qIndex)).

Definition class_neutral : jsstring :=
  js "bg-white dark:bg-neutral-800 border-neutral-200 dark:border-neutral-700 hover:bg-neutral-50 dark:hover:bg-neutral-700".

Definition class_correct : jsstring :=
  js "bg-green-100 border-green-300 text-green-800 dark:bg-green-900/40 dark:border-green-800 dark:text-green-300".

Definition class_wrong : jsstring :=
  js "bg-red-100 border-red-300 text-red-800 dark:bg-red-900/40 dark:border-red-800 dark:text-red-300".

Definition class_dimmed : jsstring := js "opacity-50 dark:bg-neutral-800".

(** The class of the button of option [oIndex] of question [qIndex]. *)
Definition btnClass (quizState : gmap nat nat) (q : QuizQuestion.t)
    (qIndex oIndex : nat) : jsstring :=
  let isSelected := bool_decide (quizState !! qIndex = Some oIndex) in
  let isCorrect := (Z.of_nat oIndex =? QuizQuestion.correctAnswer q) in
  if showResult quizState qIndex then
    if isCorrect then class_correct
    else if isSelected then class_wrong
    else class_dimmed
  else class_neutral.

(** A click on the button of an option: the button is [disabled] once the
    question shows its result, and a disabled button does not call its
    handler. *)
Definition click_option (quizState : gmap nat nat) (click : nat * nat)
    : gmap nat nat :=
  if showResult quizState click.1 then quizState
  else handleQuizOption click.1 click.2 quizState.

(** ** The secondary image (ArticleView.tsx) *)

(** The condition under which the secondary image is rendered after the
    section of index [idx]. *)
Definition shows_secondary (article : RewikiArticle.t) (secImgError : bool)
    (idx : nat) : bool :=
  let n := length (RewikiArticle.sections article) in
  (((idx =? 1)%nat && (2 <=? n)%nat) || ((idx =? 0)%nat && (n <? 2)%nat))
  && nonempty (default [] (RewikiArticle.secondaryImageUrl article))
  && negb secImgError.

(** The indices of the sections after which the image is rendered. *)
Definition secondary_slots (article : RewikiArticle.t) (secImgError : bool)
    : list nat :=
  List.filter (shows_secondary article secImgError)
              (seq 0 (length (RewikiArticle.sections article))).

(** ** The application shell (App.tsx) *)

Inductive ViewState : Type := HOME | ARTICLE | LOADING | ERROR.

Definition theme_key : jsstring := js "rewiki_theme".
Definition lang_key : jsstring := js "rewiki_lang".

(** The value stored for the theme. *)
Definition theme_tag (darkMode : bool) : jsstring :=
  if darkMode then js "dark" else js "light".

(** [JSON.parse] on the stored history, read at the type App.tsx gives its
    result (the cast is not checked); [None] when it raises. *)
Class HistoryParser : Type := {
  JSON_parse_history : jsstring → option (list RewikiArticle.t)
}.

Module App.
(** The state of the component.  [language] holds the tag as a string: the
    value read from the storage is cast to [Language] without a check. *)
Record t : Type := mk {
  viewState : ViewState;
  currentArticle : option RewikiArticle.t;
  searchQuery : jsstring;
  error : option jsstring;
  isMenuOpen : bool;
  darkMode : bool;
  language : jsstring;
  store : AppState
}.
End App.

Definition with_storage (f : gmap jsstring jsstring → gmap jsstring jsstring)
    (st : AppState) : AppState :=
  {| history := history st; localStorage := f (localStorage st) |}.

(** The state after the first render and its effects, on the storage
    [storage], when that render completes and the stored history reads as a
    list of articles or not at all: the initial values of [useState], the
    history read back, and the theme and the language written by their
    effects.  Whether the render completes is decided in [start] below. *)
Definition mount `{HistoryParser} (storage : gmap jsstring jsstring) : App.t :=
  let darkMode := bool_decide (storage !! theme_key = Some (js "dark")) in
  let language := match storage !! lang_key with
                  | Some (c :: s) => c :: s
                  | _ => js "es"
                  end in
  let loaded := match storage !! history_key with
                | Some (c :: saved) =>
                    default [] (JSON_parse_history (c :: saved))
                | _ => []
                end in
  {| App.viewState := HOME;
     App.currentArticle := None;
     App.searchQuery := [];
     App.error := None;
     App.isMenuOpen := false;
     App.darkMode := darkMode;
     App.language := language;
     App.store :=
       {| history := loaded;
          localStorage := <[lang_key := language]>
                            (<[theme_key := theme_tag darkMode]> storage) |} |}.

(** The initial values of [darkMode] and [language] ([useState]). *)
Definition initial_darkMode (storage : gmap jsstring jsstring) : bool :=
  bool_decide (storage !! theme_key = Some (js "dark")).

Definition initial_language (storage : gmap jsstring jsstring) : jsstring :=
  match storage !! lang_key with
  | Some (c :: s) => c :: s
  | _ => js "es"
  end.

(** The table [strings] of the render has the two languages of [Language].
    For any other tag [strings[language]] is not a table of labels
    ([undefined], unless the tag names an inherited property), and the
    render, which reads [txt.menuTitle], does not complete on
    [undefined]. *)
Definition known_language (tag : jsstring) : bool :=
  bool_decide (tag = js "en") || bool_decide (tag = js "es").

(** What the effect that loads the history leaves in [history]: nothing is
    stored, or the empty string, and the history stays empty;
    [JSON.parse] raises, the exception is caught and the history stays
    empty; [JSON.parse] returns a list of articles, which becomes the
    history.  When it returns anything else ([null], a number, a list of
    other things) the state is outside the types of types.ts, and on a value
    without [length] and [map] the next render does not complete: [None]. *)
Definition loaded_history `{Platform} `{HistoryParser}
    (storage : gmap jsstring jsstring) : option (list RewikiArticle.t) :=
  match storage !! history_key with
  | Some (c :: saved) =>
      match JSON_parse (c :: saved) with
      | None => Some []
      | Some _ => JSON_parse_history (c :: saved)
      end
  | _ => Some []
  end.

(** The application started on the storage [storage]: the state once the
    first render and its effects are done, or [None] where the render does
    not complete or the state is outside the types. *)
Definition start `{Platform} `{HistoryParser}
    (storage : gmap jsstring jsstring) : option App.t :=
  let darkMode := initial_darkMode storage in
  let language := initial_language storage in
  if known_language language then
    match loaded_history storage with
    | Some loaded =>
        Some {| App.viewState := HOME;
                App.currentArticle := None;
                App.searchQuery := [];
                App.error := None;
                App.isMenuOpen := false;
                App.darkMode := darkMode;
                App.language := language;
                App.store :=
                  {| history := loaded;
                     localStorage :=
                       <[lang_key := language]>
                         (<[theme_key := theme_tag darkMode]> storage) |} |}
    | None => None
    end
  else None.

(** [topicOverride || searchQuery] *)
Definition search_query (topicOverride : option jsstring) (app : App.t)
    : jsstring :=
  match topicOverride with
  | Some (c :: q) => c :: q
  | _ => App.searchQuery app
  end.

(** [handleSearch] up to the call of the generator: [None] when the query is
    blank and the handler returns at once, otherwise the topic and language
    passed to [generateRewikiArticle] and the state while it is awaited. *)
Definition search_begin (topicOverride : option jsstring) (app : App.t)
    : option (jsstring * jsstring * App.t) :=
  let query := search_query topicOverride app in
  if nonempty (trim query) then
    Some (query, App.language app,
          {| App.viewState := LOADING;
             App.currentArticle := App.currentArticle app;
             App.searchQuery := match topicOverride with
                                | Some (c :: q) => c :: q
                                | _ => App.searchQuery app
                                end;
             App.error := None;
             App.isMenuOpen := false;
             App.darkMode := App.darkMode app;
             App.language := App.language app;
             App.store := App.store app |})
  else None.

Definition search_failed_message : jsstring :=
  js "Failed to generate Rewiki article. High traffic or API limit.".

(** [handleSearch] after the generator has settled with [generated]. *)
Definition search_end `{Platform} (generated : Outcome RewikiArticle.t)
    (app : App.t) : App.t :=
  match generated with
  | Return article =>
      {| App.viewState := ARTICLE;
         App.currentArticle := Some article;
         App.searchQuery := App.searchQuery app;
         App.error := App.error app;
         App.isMenuOpen := App.isMenuOpen app;
         App.darkMode := App.darkMode app;
         App.language := App.language app;
         App.store := addToHistory article (App.store app) |}
  | Throw _ =>
      {| App.viewState := ERROR;
         App.currentArticle := App.currentArticle app;
         App.searchQuery := App.searchQuery app;
         App.error := Some search_failed_message;
         App.isMenuOpen := App.isMenuOpen app;
         App.darkMode := App.darkMode app;
         App.language := App.language app;
         App.store := App.store app |}
  end.

(** [handleSearch] when nothing else happens while the generator is
    awaited. *)
Definition handleSearch `{Platform} (topicOverride : option jsstring)
    (generated : Outcome RewikiArticle.t) (app : App.t) : App.t :=
  match search_begin topicOverride app with
  | Some (_, _, loading) => search_end generated loading
  | None => app
  end.

Definition loadFromHistory (article : RewikiArticle.t) (app : App.t) : App.t :=
  {| App.viewState := ARTICLE;
     App.currentArticle := Some article;
     App.searchQuery := App.searchQuery app;
     App.error := App.error app;
     App.isMenuOpen := false;
     App.darkMode := App.darkMode app;
     App.language := App.language app;
     App.store := App.store app |}.

Definition resetView (app : App.t) : App.t :=
  {| App.viewState := HOME;
     App.currentArticle := None;
     App.searchQuery := [];
     App.error := App.error app;
     App.isMenuOpen := App.isMenuOpen app;
     App.darkMode := App.darkMode app;
     App.language := App.language app;
     App.store := App.store app |}.

(** [prev === 'en' ? 'es' : 'en'] *)
Definition other_language (prev : jsstring) : jsstring :=
  if decide (prev = js "en") then js "es" else js "en".

(** [toggleLanguage], followed by the effect that stores the language. *)
Definition toggleLanguage (app : App.t) : App.t :=
  let language := other_language (App.language app) in
  {| App.viewState := App.viewState app;
     App.currentArticle := App.currentArticle app;
     App.searchQuery := App.searchQuery app;
     App.error := App.error app;
     App.isMenuOpen := App.isMenuOpen app;
     App.darkMode := App.darkMode app;
     App.language := language;
     App.store := with_storage (insert lang_key language) (App.store app) |}.

(** [setDarkMode(!darkMode)], followed by the effect that stores the
    theme. *)
Definition toggleDarkMode (app : App.t) : App.t :=
  let darkMode := negb (App.darkMode app) in
  {| App.viewState := App.viewState app;
     App.currentArticle := App.currentArticle app;
     App.searchQuery := App.searchQuery app;
     App.error := App.error app;
     App.isMenuOpen := App.isMenuOpen app;
     App.darkMode := darkMode;
     App.language := App.language app;
     App.store := with_storage (insert theme_key (theme_tag darkMode))
                               (App.store app) |}.

(** [setSearchQuery] and [setIsMenuOpen]. *)
Definition setSearchQuery (q : jsstring) (app : App.t) : App.t :=
  {| App.viewState := App.viewState app;
     App.currentArticle := App.currentArticle app;
     App.searchQuery := q;
     App.error := App.error app;
     App.isMenuOpen := App.isMenuOpen app;
     App.darkMode := App.darkMode app;
     App.language := App.language app;
     App.store := App.store app |}.

Definition setIsMenuOpen (b : bool) (app : App.t) : App.t :=
  {| App.viewState := App.viewState app;
     App.currentArticle := App.currentArticle app;
     App.searchQuery := App.searchQuery app;
     App.error := App.error app;
     App.isMenuOpen := b;
     App.darkMode := App.darkMode app;
     App.language := App.language app;
     App.store := App.store app |}.

(** What the handlers of the shell itself do to the component.  The
    revisions, which the article view applies to objects it shares with the
    history, are described on the memory, in the next part. *)
Inductive Event : Type :=
  | SearchBegins (topicOverride : option jsstring)
  | SearchEnds (generated : Outcome RewikiArticle.t)
  | LoadFromHistory (article : RewikiArticle.t)
  | ResetView
  | ToggleLanguage
  | ToggleDarkMode
  | SetSearchQuery (q : jsstring)
  | SetIsMenuOpen (b : bool).

Definition step `{Platform} (app : App.t) (e : Event) : App.t :=
  match e with
  | SearchBegins topicOverride =>
      match search_begin topicOverride app with
      | Some (_, _, loading) => loading
      | None => app
      end
  | SearchEnds generated => search_end generated app
  | LoadFromHistory article => loadFromHistory article app
  | ResetView => resetView app
  | ToggleLanguage => toggleLanguage app
  | ToggleDarkMode => toggleDarkMode app
  | SetSearchQuery q => setSearchQuery q app
  | SetIsMenuOpen b => setIsMenuOpen b app
  end.

(** The state after the events [events]. *)
Definition run `{Platform} (app : App.t) (events : list Event) : App.t :=
  foldl step app events.

(** The storage a reload starts from. *)
Definition storage_of (app : App.t) : gmap jsstring jsstring :=
  localStorage (App.store app).

(** A history parser for the examples: it reads back the serialisation that
    [sample_stringify] gives for the history of the twelve insertions, and
    rejects every other text. *)
Definition sample_history : list RewikiArticle.t :=
  history (insert_all (H := sample_platform) twelve_insertions (initial ∅)).

Definition sample_history_parser : HistoryParser :=
  {| JSON_parse_history := λ s,
       if decide (s = sample_stringify sample_history)
       then Some sample_history else None |}.

(** [s] occurs in [t] as one contiguous run. *)
Definition part_of (s t : jsstring) : Prop := ∃ pre post, t = pre ++ s ++ post.

(** What [generateTopicImage] returns on the reply [reply]. *)
Definition synthesized (reply : Outcome (option (list Part))) : option jsstring :=
  match reply with
  | Return parts => first_inline (default [] parts)
  | Throw _ => None
  end.

(** The text of the JSON object with [topic] "Paris", one image prompt and a
    date, and a platform that parses it. *)
Definition paris_text : jsstring :=
  js "{" ++ quoted (js "topic") ++ js ":" ++ quoted (js "Paris") ++ js ","
         ++ quoted (js "imagePrompts") ++ js ":[" ++ quoted (js "The Seine")
         ++ js "]," ++ quoted (js "lastUpdated") ++ js ":"
         ++ quoted (js "May 2024") ++ js "}".

Definition paris_props : gmap jsstring JSON :=
  <[js "topic" := JStr (js "Paris")]>
    (<[js "imagePrompts" := JArr [JStr (js "The Seine")] ∅]>
       (<[js "lastUpdated" := JStr (js "May 2024")]> ∅)).

Definition paris_value : JSON := JObj paris_props.

(** The properties of [rome_value]. *)
Definition rome_props : gmap jsstring JSON :=
  <[js "topic" := JStr (js "Rome")]> (<[js "language" := JStr (js "fr")]> ∅).

Definition paris_platform : Platform :=
  {| JSON_parse := λ s, if decide (s = paris_text) then Some paris_value
                        else if decide (s = js "null") then Some JNull
                        else None;
     ToNumber := sample_ToNumber;
     JSON_stringify := sample_stringify |}.

(** An image reply with one text part and one part with inline data. *)
Definition png_reply : Outcome (option (list Part)) :=
  Return (Some [ {| inlineData := None |};
                 {| inlineData := Some {| mimeType := Some (js "image/png");
                                          data := Some (js "iVBORw0KGgo=") |} |} ]).

Definition paris_env (image : Outcome (option (list Part))) : GenEnv :=
  {| text_reply := Return (Some paris_text);
     now := 1700000000000;
     today := js "11/2/2026";
     image_reply := image |}.

(** The sample article after an accepted "add" and after an accepted general
    "fix". *)
Definition sample_added : RewikiArticle.t :=
  RewikiArticle.with_sections_changeLog
    [sec_history; sec_geography;
     ArticleSection.mk (toString 1700000050000) (js "New Section")
       (js "Rome has a Mediterranean climate.")]
    (js "Shortened | Added section") sample_article.

Definition sample_fixed : RewikiArticle.t :=
  RewikiArticle.with_sections_changeLog
    [ArticleSection.mk (js "s1") (js "History") (js "Roma."); sec_geography]
    (js "Shortened | Fixed info") sample_article.

(** ** Articles in memory (ArticleView.tsx, App.tsx) *)

(** The article view and the history hold the same section objects: the
    article put in the history is the object shown, [loadFromHistory] shows
    the object of the history, and a revised article keeps the section
    objects it does not replace.  The section objects are therefore kept by
    address.  An object is never freed, and a new object takes the next
    address. *)
Abbreviation Heap := (list ArticleSection.t).

(** An article object: the values of its properties, and the addresses of
    the section objects in its [sections] array.  The sections are read
    through the addresses; the [sections] held in [props] are not looked
    at.  Nothing assigns to a property of an article object once the
    generator has returned it. *)
Record ArticleObj : Type := {
  props : RewikiArticle.t;
  section_refs : list nat
}.

Definition read_sections (h : Heap) (refs : list nat)
    : list ArticleSection.t :=
  omap (λ addr, h !! addr) refs.

(** The article as it reads in the memory [h]. *)
Definition read (h : Heap) (a : ArticleObj) : RewikiArticle.t :=
  RewikiArticle.with_sections_changeLog
    (read_sections h (section_refs a))
    (RewikiArticle.changeLog (props a)) (props a).

(** The addresses of [a] are in use and all different. *)
Definition well_formed (h : Heap) (a : ArticleObj) : Prop :=
  Forall (λ addr, (addr < length h)%nat) (section_refs a)
  ∧ NoDup (section_refs a).

(** An article built by [JSON.parse]: new objects for its sections. *)
Definition allocate (h : Heap) (article : RewikiArticle.t)
    : ArticleObj * Heap :=
  ({| props := article;
      section_refs :=
        seq (length h) (length (RewikiArticle.sections article)) |},
   h ++ RewikiArticle.sections article).

(** [article.sections.map(s => ...)] of the "fix" branch: the spread builds
    a new object for a section that contains the selected text, and every
    other section object is returned itself. *)
Fixpoint map_fix_in_memory (selection : option Selection)
    (r : RevisionResult.t) (h : Heap) (refs : list nat) : list nat * Heap :=
  match refs with
  | [] => ([], h)
  | addr :: rest =>
      let hit :=
        match selection, h !! addr with
        | Some sel, Some s =>
            if includes (ArticleSection.content s) (text sel)
            then Some s else None
        | _, _ => None
        end in
      match hit with
      | Some s =>
          let fresh :=
            ArticleSection.with_content
              (default (ArticleSection.content s) (truthy_content r)) s in
          let '(rest', h') :=
            map_fix_in_memory selection r (h ++ [fresh]) rest in
          (length h :: rest', h')
      | None =>
          let '(rest', h') := map_fix_in_memory selection r h rest in
          (addr :: rest', h')
      end
  end.

(** The computation of [newSections] in the memory.  "Add" pushes a new
    object on a copy of the array.  [newSections[0].content = ...] writes
    into the object at the first address, which without a selection is the
    first section object of the article itself. *)
Definition revise_sections_in_memory (h : Heap) (a : ArticleObj)
    (selection : option Selection) (editType : EditType)
    (r : RevisionResult.t) (now : Z) : Outcome (list nat) * Heap :=
  match editType, truthy_content r with
  | add, Some c =>
      (Return (section_refs a ++ [length h]),
       h ++ [ArticleSection.mk (toString now) (js "New Section") c])
  | _, _ =>
      let '(newSections, h1) :=
        map_fix_in_memory selection r h (section_refs a) in
      match selection, truthy_content r, editType with
      | None, Some c, fix_ =>
          match newSections with
          | addr :: _ =>
              (Return newSections,
               alter (ArticleSection.with_content c) addr h1)
          | [] => (Throw TypeError, h1)
          end
      | _, _, _ => (Return newSections, h1)
      end
  end.

(** The body of the timer callback of [submitRevision] in the memory: the
    article object handed to [onUpdateArticle], a new object with the
    properties of [a], and the memory the callback leaves. *)
Definition apply_revision_in_memory (h : Heap) (a : ArticleObj)
    (selection : option Selection) (editType : EditType)
    (r : RevisionResult.t) (now : Z) : Outcome ArticleObj * Heap :=
  match revise_sections_in_memory h a selection editType r now with
  | (Return newSections, h') =>
      (Return {| props :=
                   RewikiArticle.with_sections_changeLog
                     (RewikiArticle.sections (props a))
                     (RewikiArticle.changeLog (props a) ++ js " | "
                      ++ edit_note editType)
                     (props a);
                 section_refs := newSections |}, h')
  | (Throw e, h') => (Throw e, h')
  end.

(** The object a revision writes into, with what it writes: the general
    "fix" with a text, on an article that has a section. *)
Definition written_section (a : ArticleObj) (selection : option Selection)
    (editType : EditType) (r : RevisionResult.t) : option (nat * jsstring) :=
  match selection, editType, truthy_content r, section_refs a with
  | None, fix_, Some c, addr :: _ => Some (addr, c)
  | _, _, _, _ => None
  end.

(** What the shell holds of articles: the section objects, [currentArticle],
    [history] and the storage. *)
Record Memory : Type := {
  objects : Heap;
  current : option ArticleObj;
  entries : list ArticleObj;
  stored : gmap jsstring jsstring
}.

(** The history as it reads. *)
Definition history_in (m : Memory) : list RewikiArticle.t :=
  read (objects m) <$> entries m.

(** [setCurrentArticle(article); addToHistory(article)] of [handleSearch],
    for the article the generator has built: one object is shown and put
    in the history. *)
Definition remember `{Platform} (article : RewikiArticle.t) (m : Memory)
    : Memory :=
  let '(obj, h) := allocate (objects m) article in
  let filtered :=
    filter (λ e, RewikiArticle.topic (props e) ≠ RewikiArticle.topic article)
           (entries m) in
  let updated := take 10 (obj :: filtered) in
  {| objects := h;
     current := Some obj;
     entries := updated;
     stored := <[history_key := JSON_stringify (read h <$> updated)]>
                 (stored m) |}.

(** [loadFromHistory(item)] for the entry of index [i]. *)
Definition revisit (i : nat) (m : Memory) : Memory :=
  match entries m !! i with
  | Some item => {| objects := objects m;
                    current := Some item;
                    entries := entries m;
                    stored := stored m |}
  | None => m
  end.

(** The timer callback of [submitRevision] for the article object [a] the
    view was given, with [onUpdateArticle], which is [setCurrentArticle];
    an exception ends the callback before anything is published. *)
Definition revise (a : ArticleObj) (selection : option Selection)
    (editType : EditType) (r : RevisionResult.t) (now : Z) (m : Memory)
    : Memory :=
  match apply_revision_in_memory (objects m) a selection editType r now with
  | (Return updated, h) => {| objects := h;
                              current := Some updated;
                              entries := entries m;
                              stored := stored m |}
  | (Throw _, h) => {| objects := h;
                       current := current m;
                       entries := entries m;
                       stored := stored m |}
  end.

(** The memory after a first search for "Rome", and the article object it
    shows and remembers. *)
Definition empty_memory : Memory :=
  {| objects := []; current := None; entries := []; stored := ∅ |}.

Definition rome_memory : Memory :=
  remember (H := sample_platform) sample_article empty_memory.

Definition rome_object : ArticleObj :=
  {| props := sample_article; section_refs := [0%nat; 1%nat] |}.

(** * Properties *)

(** Two string literals are different. *)
Ltac js_neq := let E := fresh in intros E; vm_compute in E; discriminate E.

(** ** White space and prefixes *)

Section StringFacts.

Implicit Types s t w p r : jsstring.

Lemma skip_ws_all_ws w s : all_ws w = true → skip_ws (w ++ s) = skip_ws s.
Proof.
  induction w as [|c w IH]; simpl; [done|].
  intros [Hc Hw]%andb_prop. rewrite Hc. by apply IH.
Qed.

Lemma skip_ws_fixed c s : is_ws c = false → skip_ws (c :: s) = c :: s.
Proof. simpl. by intros ->. Qed.

Lemma skip_ws_head s c r : skip_ws s = c :: r → is_ws c = false.
Proof.
  induction s as [|a s IH]; simpl; [done|].
  destruct (is_ws a) eqn:Ha; [done|]. by intros [= <- _].
Qed.

Lemma skip_ws_idemp s : skip_ws (skip_ws s) = skip_ws s.
Proof.
  destruct (skip_ws s) as [|c r] eqn:E; [done|].
  apply skip_ws_fixed. by eapply skip_ws_head.
Qed.

Lemma skip_ws_app s t c r : skip_ws s = c :: r → skip_ws (s ++ t) = c :: r ++ t.
Proof.
  induction s as [|a s IH]; simpl; [done|].
  destruct (is_ws a); [done|]. by intros [= <- <-].
Qed.

Lemma skip_ws_snoc s c : is_ws c = false → skip_ws (s ++ [c]) = skip_ws s ++ [c].
Proof.
  intros Hc. induction s as [|a s IH]; simpl; [by rewrite Hc|].
  by destruct (is_ws a).
Qed.

Lemma skip_ws_end_cons c s :
  is_ws c = false → skip_ws_end (c :: s) = c :: skip_ws_end s.
Proof.
  intros Hc. unfold skip_ws_end. simpl.
  by rewrite skip_ws_snoc, rev_app_distr.
Qed.

Lemma trim_idemp s : trim (trim s) = trim s.
Proof.
  unfold trim. destruct (skip_ws s) as [|c r] eqn:E; [done|].
  pose proof (skip_ws_head _ _ _ E) as Hc.
  rewrite skip_ws_end_cons by done. rewrite skip_ws_fixed by done.
  rewrite skip_ws_end_cons by done. f_equal.
  unfold skip_ws_end. by rewrite rev_involutive, skip_ws_idemp.
Qed.

Lemma rev_all_ws w : all_ws w = true → all_ws (rev w) = true.
Proof.
  unfold all_ws. rewrite !forallb_forall. intros H x Hx.
  apply H. by apply in_rev.
Qed.

Lemma strip_prefix_app p s : strip_prefix p (p ++ s) = Some s.
Proof. induction p as [|a p IH]; simpl; [done|]. by rewrite N.eqb_refl. Qed.

Lemma strip_prefix_ci_app p t r :
  strip_prefix_ci p t = Some [] → strip_prefix_ci p (t ++ r) = Some r.
Proof.
  revert t. induction p as [|a p IH]; intros [|b t]; simpl; try done.
  destruct (canonicalize a =? canonicalize b)%N; [apply IH | done].
Qed.

(** A string whose first character is not a backquote does not open with a
    fence. *)
Lemma strip_prefix_fence_head c s :
  (c =? 96)%N = false → strip_prefix fence (c :: s) = None.
Proof.
  intros H. change fence with [96; 96; 96]%N. cbn [strip_prefix].
  by rewrite N.eqb_sym, H.
Qed.

Lemma ws_not_backquote c : is_ws c = true → (c =? 96)%N = false.
Proof.
  intros H. apply N.eqb_neq. intros ->. by vm_compute in H.
Qed.

Lemma json_first_not_backquote c : json_first c = true → (c =? 96)%N = false.
Proof.
  intros H. apply N.eqb_neq. intros ->. by vm_compute in H.
Qed.

Lemma json_last_not_backquote c : json_last c = true → (c =? 96)%N = false.
Proof.
  intros H. apply N.eqb_neq. intros ->. by vm_compute in H.
Qed.

(** Only [j] and [J] match the first letter of the tag. *)
Lemma canonicalize_j c :
  (canonicalize 106 =? canonicalize c)%N = true → c = 74%N ∨ c = 106%N.
Proof.
  unfold canonicalize at 2.
  destruct ((97 <=? c) && (c <=? 122))%N eqn:E.
  - apply andb_prop in E as [Hlo%N.leb_le Hhi%N.leb_le].
    intros Hc%N.eqb_eq. change (canonicalize 106) with 74%N in Hc.
    right. lia.
  - intros Hc%N.eqb_eq. change (canonicalize 106) with 74%N in Hc.
    by left.
Qed.

Lemma strip_json_tag_head c s :
  is_ws c = true ∨ json_first c = true →
  strip_prefix_ci (js "json") (c :: s) = None.
Proof.
  intros H. change (js "json") with (106 :: js "son")%N.
  cbn [strip_prefix_ci].
  destruct (canonicalize 106 =? canonicalize c)%N eqn:E; [|done].
  apply canonicalize_j in E as [-> | ->]; destruct H as [H|H]; by vm_compute in H.
Qed.

(** The outer shape of a JSON text, spelled out. *)
Lemma json_edges_inv P :
  json_edges P = true →
  ∃ c r d q, skip_ws P = c :: r ∧ json_first c = true
           ∧ skip_ws (rev P) = d :: q ∧ json_last d = true.
Proof.
  unfold json_edges.
  destruct (skip_ws P) as [|c r]; [done|].
  destruct (skip_ws (rev P)) as [|d q]; [done|].
  intros [? ?]%andb_prop. by exists c, r, d, q.
Qed.

(** The head of a string is its first significant character or white
    space. *)
Lemma head_ws_or_first s c r a s' :
  skip_ws s = c :: r → s = a :: s' → is_ws a = true ∨ a = c.
Proof.
  intros E ->. simpl in E. destruct (is_ws a); [by left|].
  injection E as -> _. by right.
Qed.

End StringFacts.

(** ** Fence stripping *)

Section CleanJson.

Implicit Types P tag w s r q : jsstring.

Lemma no_open_fence s c r :
  skip_ws s = c :: r → (c =? 96)%N = false → strip_prefix fence s = None.
Proof.
  intros E Hc. destruct s as [|a s']; [done|].
  apply strip_prefix_fence_head.
  destruct (head_ws_or_first _ _ _ _ _ E eq_refl) as [Ha | ->]; [|done].
  by apply ws_not_backquote.
Qed.

Lemma no_json_tag s c r :
  skip_ws s = c :: r → json_first c = true →
  strip_prefix_ci (js "json") s = None.
Proof.
  intros E Hc. destruct s as [|a s']; [done|].
  apply strip_json_tag_head.
  destruct (head_ws_or_first _ _ _ _ _ E eq_refl) as [Ha | ->]; auto.
Qed.

Lemma strip_close_fence_none s d q :
  skip_ws (rev s) = d :: q → (d =? 96)%N = false → strip_close_fence s = s.
Proof.
  intros E Hd. unfold strip_close_fence.
  by rewrite (no_open_fence _ _ _ E Hd).
Qed.

(** A closing fence goes away together with the white space before it. *)
Lemma strip_close_fence_fenced s w2 :
  all_ws w2 = true → strip_close_fence (s ++ w2 ++ fence) = skip_ws_end s.
Proof.
  intros Hw. unfold strip_close_fence.
  rewrite !rev_app_distr. change (rev fence) with fence.
  rewrite <- app_assoc, strip_prefix_app.
  rewrite skip_ws_all_ws by by apply rev_all_ws. done.
Qed.

(** On a text with the outer shape of JSON nothing but the surrounding
    white space is removed. *)
Lemma cleanJson_bare P : json_edges P = true → cleanJson P = trim P.
Proof.
  intros (c & r & d & q & Hc & Hfirst & Hd & Hlast)%json_edges_inv.
  pose proof (no_open_fence _ _ _ Hc (json_first_not_backquote _ Hfirst)) as Hopen.
  unfold cleanJson.
  assert (strip_json_fence P = P) as -> by (unfold strip_json_fence; by rewrite Hopen).
  assert (strip_open_fence P = P) as -> by (unfold strip_open_fence; by rewrite Hopen).
  by rewrite (strip_close_fence_none _ _ _ Hd (json_last_not_backquote _ Hlast)).
Qed.

(** What is left of a fenced text once the opening fence, its tag and the
    white space after them are gone. *)
Lemma strip_open_fenced tag w1 P w2 c r :
  tag = [] ∨ json_tag tag = true → all_ws w1 = true →
  skip_ws P = c :: r → json_first c = true →
  strip_open_fence (strip_json_fence (fenced tag w1 P w2))
  = (c :: r) ++ w2 ++ fence.
Proof.
  intros Htag Hw1 Hc Hfirst.
  assert (skip_ws (w1 ++ P ++ w2 ++ fence) = (c :: r) ++ w2 ++ fence) as Hrest.
  { rewrite skip_ws_all_ws by done. by apply skip_ws_app. }
  assert (strip_prefix fence ((c :: r) ++ w2 ++ fence) = None) as Hbody.
  { apply strip_prefix_fence_head. by apply json_first_not_backquote. }
  unfold fenced, strip_json_fence. rewrite strip_prefix_app.
  destruct Htag as [-> | Htag].
  - rewrite app_nil_l, (no_json_tag _ _ _ Hrest Hfirst).
    unfold strip_open_fence. by rewrite strip_prefix_app.
  - unfold json_tag in Htag.
    destruct (strip_prefix_ci (js "json") tag) as [[|]|] eqn:E; try done.
    rewrite (strip_prefix_ci_app _ _ _ E), Hrest.
    unfold strip_open_fence. by rewrite Hbody.
Qed.

Lemma cleanJson_fenced tag w1 P w2 :
  tag = [] ∨ json_tag tag = true → all_ws w1 = true → all_ws w2 = true →
  json_edges P = true →
  cleanJson (fenced tag w1 P w2) = cleanJson P.
Proof.
  intros Htag Hw1 Hw2 HP. rewrite (cleanJson_bare P HP).
  destruct (json_edges_inv _ HP) as (c & r & d & q & Hc & Hfirst & _).
  unfold cleanJson.
  rewrite (strip_open_fenced _ _ _ _ _ _ Htag Hw1 Hc Hfirst).
  rewrite strip_close_fence_fenced by done.
  rewrite <- Hc. apply trim_idemp.
Qed.

End CleanJson.

(** ** The content generator *)

Section Generator.

Context `{Platform}.

Implicit Types (topic text : jsstring) (lang : Language) (env : GenEnv)
               (log : list Request) (m : gmap jsstring JSON).

(** The outer [catch] rethrows what it caught. *)
Lemma try_catch_rethrow {A} (m : Run A) log :
  try_catch m (λ e, throw e) log = m log.
Proof. unfold try_catch, throw. by destruct (m log) as [[a|e] log']. Qed.

(** The generator on a reply with a text that is not empty. *)
Lemma generateRewikiArticle_text topic lang env c text log :
  text_reply env = Return (Some (c :: text)) →
  generateRewikiArticle topic lang env log =
    match JSON_parse (cleanJson (c :: text)) with
    | Some d => assemble lang env d (log ++ [ArticleRequest topic lang])
    | None => (Throw (Error (js "Invalid JSON response from AI")),
               log ++ [ArticleRequest topic lang])
    end.
Proof.
  intros Hreply. unfold generateRewikiArticle.
  rewrite try_catch_rethrow. unfold mbind, run_bind, generateContent.
  rewrite Hreply. by destruct (JSON_parse (cleanJson (c :: text))).
Qed.

(** The generator on a reply without text. *)
Lemma generateRewikiArticle_no_text topic lang env (txt : option jsstring) log :
  text_reply env = Return txt → nonempty (default [] txt) = false →
  generateRewikiArticle topic lang env log =
    (Throw (Error (js "No content generated")),
     log ++ [ArticleRequest topic lang]).
Proof.
  intros Hreply Hempty. unfold generateRewikiArticle.
  rewrite try_catch_rethrow. unfold mbind, run_bind, generateContent.
  rewrite Hreply. by destruct txt as [[|c s]|].
Qed.

(** The generator on a rejected request. *)
Lemma generateRewikiArticle_rejected topic lang env e log :
  text_reply env = Throw e →
  generateRewikiArticle topic lang env log =
    (Throw e, log ++ [ArticleRequest topic lang]).
Proof.
  intros Hreply. unfold generateRewikiArticle.
  rewrite try_catch_rethrow. unfold mbind, run_bind, generateContent.
  by rewrite Hreply.
Qed.

Lemma generateTopicImage_returns prompt reply log :
  ∃ image, generateTopicImage prompt reply log
           = (Return image, log ++ [ImageRequest prompt]).
Proof.
  unfold generateTopicImage, try_catch, mbind, run_bind, generateContent.
  destruct reply as [parts|e]; eauto.
Qed.

Lemma stamp_object lang env m log :
  ∃ m', stamp lang env (JObj m) log = (Return (JObj m'), log)
        ∧ stamped lang env (JObj m').
Proof.
  unfold stamped, stamp, mbind, run_bind, assign, mret, run_ret.
  cbn [get_prop].
  destruct (truthy _); eexists; (split; [reflexivity|]);
    rewrite ?(lookup_insert_ne _ (js "lastUpdated")) by js_neq;
    rewrite (lookup_insert_ne _ (js "language") (js "id")) by js_neq;
    by rewrite !lookup_insert_eq.
Qed.

Lemma stamp_array lang env l m log :
  ∃ m', stamp lang env (JArr l m) log = (Return (JArr l m'), log)
        ∧ stamped lang env (JArr l m').
Proof.
  unfold stamped, stamp, mbind, run_bind, assign, mret, run_ret.
  cbn [get_prop].
  destruct (truthy _); eexists; (split; [reflexivity|]);
    rewrite ?(lookup_insert_ne _ (js "lastUpdated")) by js_neq;
    rewrite (lookup_insert_ne _ (js "language") (js "id")) by js_neq;
    by rewrite !lookup_insert_eq.
Qed.

(** The image step returns, and touches [generatedImage] only. *)
Lemma attach_image_returns env d log :
  ∃ d' log', attach_image env d log = (Return d', log')
    ∧ (∀ k, k ≠ js "generatedImage" → get_prop k d' = get_prop k d)
    ∧ (∀ m, d = JObj m → ∃ m', d' = JObj m').
Proof.
  assert (∃ d' log', (mret d : Run JSON) log = (Return d', log')
    ∧ (∀ k, k ≠ js "generatedImage" → get_prop k d' = get_prop k d)
    ∧ (∀ m, d = JObj m → ∃ m', d' = JObj m')) as Hsame
    by (eexists _, _; split; [reflexivity|]; eauto).
  unfold attach_image.
  destruct (get_prop (js "imagePrompts") d) as [prompts|] eqn:Hp; [|done].
  destruct (truthy _ && length_positive _); [|done].
  unfold mbind, run_bind.
  destruct (generateTopicImage_returns (index0 prompts) (image_reply env) log)
    as [[img|] ->]; [|by eexists _, _; split; [reflexivity|]; eauto].
  destruct (nonempty img); [|by eexists _, _; split; [reflexivity|]; eauto].
  destruct d as [| | | |l m|m]; try done; cbn [assign];
    (eexists _, _; split; [reflexivity|]; split;
      [intros k Hk; cbn [get_prop]; by rewrite lookup_insert_ne
      | intros; simplify_eq; eauto]).
Qed.

Lemma assemble_object lang env m log :
  ∃ m' log', assemble lang env (JObj m) log = (Return (JObj m'), log')
             ∧ stamped lang env (JObj m').
Proof.
  unfold assemble, mbind, run_bind.
  destruct (stamp_object lang env m log) as (m1 & -> & Hid & Hlang).
  destruct (attach_image_returns env (JObj m1) log)
    as (d & log' & -> & Hframe & Hobj).
  destruct (Hobj m1 eq_refl) as [m' ->]. exists m', log'.
  split; [done|]. split; (rewrite Hframe by js_neq; done).
Qed.

(** Whatever the generator returns carries the clock reading as its
    identifier and the requested language. *)
Lemma assemble_stamped lang env d d' log log' :
  assemble lang env d log = (Return d', log') → stamped lang env d'.
Proof.
  unfold assemble, mbind, run_bind.
  destruct d as [| | | |l m|m]; try done.
  - destruct (stamp_array lang env l m log) as (m1 & -> & Hid & Hlang).
    destruct (attach_image_returns env (JArr l m1) log)
      as (d & log1 & -> & Hframe & _).
    intros [= <- _]. split; (rewrite Hframe by js_neq; done).
  - destruct (stamp_object lang env m log) as (m1 & -> & Hid & Hlang).
    destruct (attach_image_returns env (JObj m1) log)
      as (d & log1 & -> & Hframe & _).
    intros [= <- _]. split; (rewrite Hframe by js_neq; done).
Qed.

Lemma generateRewikiArticle_stamped topic lang env d log log' :
  generateRewikiArticle topic lang env log = (Return d, log') →
  stamped lang env d.
Proof.
  destruct (text_reply env) as [[[|c text]|]|e] eqn:Hreply.
  - by rewrite (generateRewikiArticle_no_text _ _ _ _ _ Hreply).
  - rewrite (generateRewikiArticle_text _ _ _ _ _ _ Hreply).
    destruct (JSON_parse _); [apply assemble_stamped | done].
  - by rewrite (generateRewikiArticle_no_text _ _ _ _ _ Hreply).
  - by rewrite (generateRewikiArticle_rejected _ _ _ _ _ Hreply).
Qed.

(** On a reply whose text parses to an object the generator returns an
    object with the clock reading as identifier and the requested
    language, whatever the payload held under these names. *)
Lemma generateRewikiArticle_object topic lang env c text m log :
  text_reply env = Return (Some (c :: text)) →
  JSON_parse (cleanJson (c :: text)) = Some (JObj m) →
  ∃ m' log', generateRewikiArticle topic lang env log = (Return (JObj m'), log')
    ∧ m' !! js "id" = Some (JStr (toString (now env)))
    ∧ m' !! js "language" = Some (JStr (lang_tag lang)).
Proof.
  intros Hreply Hparse.
  rewrite (generateRewikiArticle_text _ _ _ _ _ _ Hreply), Hparse.
  apply assemble_object.
Qed.

(** A reply that parses to [null] or to a primitive value fails at the first
    assignment. *)
Lemma generateRewikiArticle_primitive topic lang env c text d log :
  text_reply env = Return (Some (c :: text)) →
  JSON_parse (cleanJson (c :: text)) = Some d →
  (∀ m, d ≠ JObj m) → (∀ l m, d ≠ JArr l m) →
  generateRewikiArticle topic lang env log
  = (Throw TypeError, log ++ [ArticleRequest topic lang]).
Proof.
  intros Hreply Hparse Hobj Harr.
  rewrite (generateRewikiArticle_text _ _ _ _ _ _ Hreply), Hparse.
  destruct d as [| | | |l m|m]; try done.
  - by destruct (Harr l m).
  - by destruct (Hobj m).
Qed.

End Generator.

(** ** Identifiers *)

Lemma js_inj : Inj (=) (=) js.
Proof.
  intros s1 s2 Heq. unfold js in Heq.
  apply (f_equal (map ascii_of_N)) in Heq.
  rewrite !map_map in Heq.
  rewrite !(map_ext _ _ ascii_N_embedding), !map_id in Heq.
  rewrite <- (string_of_list_ascii_of_string s1),
          <- (string_of_list_ascii_of_string s2). by f_equal.
Qed.

(** Different clock readings give different identifiers. *)
Lemma toString_inj : Inj (=) (=) toString.
Proof. intros a b Hab. apply js_inj in Hab. by apply (inj pretty) in Hab. Qed.

Section Identifiers.

Context `{Platform}.

(** Two calls that return give the same identifier exactly when they read
    the same clock value. *)
Lemma identifier_eq_iff topic1 lang1 env1 log1 topic2 lang2 env2 log2 d1 d2 l1 l2 :
  generateRewikiArticle topic1 lang1 env1 log1 = (Return d1, l1) →
  generateRewikiArticle topic2 lang2 env2 log2 = (Return d2, l2) →
  get_prop (js "id") d1 = get_prop (js "id") d2 ↔ now env1 = now env2.
Proof.
  intros [Hid1 _]%generateRewikiArticle_stamped
         [Hid2 _]%generateRewikiArticle_stamped.
  rewrite Hid1, Hid2. split.
  - intros [= Heq]. by apply toString_inj.
  - by intros ->.
Qed.

End Identifiers.

(** C1.  The specification asks that the identifier of a generated article
    differ from the identifier returned by any earlier call in the process.
    The identifier is the decimal rendering of the millisecond clock, so two
    calls that read the same clock value return the same identifier: here
    the article for "Rome" (requested in English) and the article for
    "Paris" (requested in Spanish), both completed at clock reading
    1700000000000, are both returned with the identifier "1700000000000".
    The language is the requested one in both, although the first payload
    says "fr". *)
Lemma generateRewikiArticle_identifier_collision :
  let first := generateRewikiArticle (H := sample_platform) (js "Rome") en
                 (sample_env rome_text 1700000000000) [] in
  let second := generateRewikiArticle (H := sample_platform) (js "Paris") es
                  (sample_env (js "{}") 1700000000000)
                  [ArticleRequest (js "Rome") en] in
  identifier_of first = Some (JStr (js "1700000000000"))
  ∧ identifier_of second = identifier_of first
  ∧ (∃ d, first.1 = Return d ∧ get_prop (js "language") d = Some (JStr (js "en")))
  ∧ (∃ d, second.1 = Return d ∧ get_prop (js "language") d = Some (JStr (js "es"))).
Proof.
  cbv zeta. split_and!.
  - vm_compute. reflexivity.
  - vm_compute. reflexivity.
  - eexists. split; [vm_compute; reflexivity|]. vm_compute. reflexivity.
  - eexists. split; [vm_compute; reflexivity|]. vm_compute. reflexivity.
Qed.

(** ** Failure of the generator *)

(** C2.  When the reply carries no text, or a text that [JSON.parse] rejects
    once the fences are stripped, [generateRewikiArticle] ends by throwing
    one [Error]: nothing is returned, so no article, complete or partial,
    reaches the caller.  The log of requests grows by the article request
    alone: the request is not repeated and no image is asked for. *)
Theorem generateRewikiArticle_unusable_reply
    `{Platform} topic lang env (txt : option jsstring) log :
  text_reply env = Return txt → parses txt = false →
  ∃ message,
    generateRewikiArticle topic lang env log
    = (Throw (Error message), log ++ [ArticleRequest topic lang])
    ∧ (message = js "No content generated"
       ∨ message = js "Invalid JSON response from AI").
Proof.
  intros Hreply Hparse. destruct txt as [[|c text]|].
  - eexists. split; [by apply (generateRewikiArticle_no_text _ _ _ _ _ Hreply) | by left].
  - eexists. split; [|by right].
    rewrite (generateRewikiArticle_text _ _ _ _ _ _ Hreply).
    simpl in Hparse. apply bool_decide_eq_false in Hparse.
    destruct (JSON_parse _); [|done]. by destruct Hparse.
  - eexists. split; [by apply (generateRewikiArticle_no_text _ _ _ _ _ Hreply) | by left].
Qed.

Lemma generateRewikiArticle_unusable_reply_witness :
  ∃ message,
    generateRewikiArticle (H := sample_platform) (js "Rome") en
      (sample_env (js "I cannot help with that.") 1700000000000) []
    = (Throw (Error message), [] ++ [ArticleRequest (js "Rome") en])
    ∧ (message = js "No content generated"
       ∨ message = js "Invalid JSON response from AI").
Proof.
  apply (generateRewikiArticle_unusable_reply (H := sample_platform)
           (js "Rome") en _ (Some (js "I cannot help with that.")) []).
  - reflexivity.
  - vm_compute. reflexivity.
Defined.

(** ** Fenced replies *)


(** The same for a payload the platform parses, on a platform whose parser
    accepts only texts of that outer shape, as [JSON.parse] does. *)
Corollary generateRewikiArticle_fenced_payload
    `{Platform} topic lang env tag w1 P w2 v log :
  (∀ s d, JSON_parse s = Some d → json_edges s = true) →
  JSON_parse P = Some v →
  tag = [] ∨ json_tag tag = true → all_ws w1 = true → all_ws w2 = true →
  generateRewikiArticle topic lang (reply_with env (fenced tag w1 P w2)) log
  = generateRewikiArticle topic lang (reply_with env P) log.
Proof.
  intros Hgrammar HP Htag Hw1 Hw2.
  assert (json_edges P = true) as Hedges by eauto.
  assert (∃ c s, P = c :: s) as (c & s & HPcs) by (destruct P; [done | eauto]).
  assert (∃ s', fenced tag w1 P w2 = 96%N :: s') as (s' & Hf) by (by eexists).
  rewrite (generateRewikiArticle_text topic lang
             (reply_with env (fenced tag w1 P w2)) 96%N s' log)
    by (by rewrite <- Hf).
  rewrite (generateRewikiArticle_text topic lang (reply_with env P) c s log)
    by (by rewrite <- HPcs).
  by rewrite <- Hf, <- HPcs, (cleanJson_fenced _ _ _ _ Htag Hw1 Hw2 Hedges).
Qed.


(** ** The revision analyzer *)

Section Analyzer.

Context `{Platform}.

Implicit Types (currentText userSelection userRequest : jsstring)
               (lang : Language) (editType : EditType)
               (reply : Outcome (option jsstring)) (log : list Request).

Lemma fallback_verdict_refuses :
  get_prop (js "accepted") fallback_verdict = Some (JBool false)
  ∧ get_prop (js "reasoning") fallback_verdict = Some (JStr fallback_reasoning)
  ∧ nonempty fallback_reasoning = true.
Proof. split_and!; [| |done]; by vm_compute. Qed.

(** A reply that parses is returned as it is. *)
Lemma analyzeRevision_parsed currentText userSelection userRequest lang
    editType c s v log :
  JSON_parse (cleanJson (c :: s)) = Some v →
  analyzeRevision currentText userSelection userRequest lang editType
    (Return (Some (c :: s))) log
  = (Return v, log ++ [RevisionRequest (take 500 currentText) userSelection
                         userRequest lang editType]).
Proof.
  intros Hparse.
  unfold analyzeRevision, try_catch, mbind, run_bind, generateContent.
  by rewrite Hparse.
Qed.

(** C3.  [analyzeRevision] returns a verdict on every reply of the
    service, and makes one request.  When the request is rejected, or the
    reply has no text, or its text does not parse, the verdict is the fixed
    one: [accepted] is [false] and [reasoning] is the fixed message, which
    is not empty. *)
Theorem analyzeRevision_never_raises currentText userSelection userRequest
    lang editType reply log :
  (∃ verdict,
     analyzeRevision currentText userSelection userRequest lang editType
       reply log
     = (Return verdict,
        log ++ [RevisionRequest (take 500 currentText) userSelection
                  userRequest lang editType]))
  ∧ (usable reply = false →
     analyzeRevision currentText userSelection userRequest lang editType
       reply log
     = (Return fallback_verdict,
        log ++ [RevisionRequest (take 500 currentText) userSelection
                  userRequest lang editType])
     ∧ get_prop (js "accepted") fallback_verdict = Some (JBool false)
     ∧ get_prop (js "reasoning") fallback_verdict
       = Some (JStr fallback_reasoning)
     ∧ nonempty fallback_reasoning = true).
Proof.
  unfold analyzeRevision, try_catch, mbind, run_bind, generateContent.
  destruct reply as [[[|c s]|]|e]; simpl.
  - split; [by eexists|]. intros _. split; [done|]. apply fallback_verdict_refuses.
  - destruct (JSON_parse (cleanJson (c :: s))) as [v|] eqn:Hparse.
    + split; [by eexists|]. rewrite bool_decide_eq_false.
      intros []. by eexists.
    + split; [by eexists|]. intros _. split; [done|]. apply fallback_verdict_refuses.
  - split; [by eexists|]. intros _. split; [done|]. apply fallback_verdict_refuses.
  - split; [by eexists|]. intros _. split; [done|]. apply fallback_verdict_refuses.
Qed.

End Analyzer.

Lemma analyzeRevision_never_raises_witness :
  analyzeRevision (H := sample_platform) (js "[]") (js "General Article Update")
    (js "Rome was founded in 753 BC") en fix_
    (Throw (ServiceError (js "offline"))) []
  = (Return fallback_verdict,
     [] ++ [RevisionRequest (take 500 (js "[]")) (js "General Article Update")
              (js "Rome was founded in 753 BC") en fix_])
  ∧ get_prop (js "accepted") fallback_verdict = Some (JBool false)
  ∧ get_prop (js "reasoning") fallback_verdict = Some (JStr fallback_reasoning)
  ∧ nonempty fallback_reasoning = true.
Proof.
  apply (analyzeRevision_never_raises (H := sample_platform) (js "[]")
           (js "General Article Update") (js "Rome was founded in 753 BC")
           en fix_ (Throw (ServiceError (js "offline"))) []).
  reflexivity.
Defined.

(** ** Applying a revision *)

Section Revision.

Implicit Types (article : RewikiArticle.t) (sel : Selection)
               (selection : option Selection) (editType : EditType)
               (r : RevisionResult.t) (s : ArticleSection.t)
               (pre post rest : list ArticleSection.t).

Lemma with_content_same s : ArticleSection.with_content (ArticleSection.content s) s = s.
Proof. by destruct s. Qed.

Lemma truthy_content_Some r c :
  RevisionResult.newContent r = Some c → nonempty c = true →
  truthy_content r = Some c.
Proof. unfold truthy_content. intros -> Hc. by destruct c. Qed.

Lemma truthy_content_None r :
  RevisionResult.newContent r = None ∨ RevisionResult.newContent r = Some [] →
  truthy_content r = None.
Proof. unfold truthy_content. by intros [-> | ->]. Qed.

(** An accepted verdict on a request that is not blank leads to the timer
    callback. *)
Lemma submitRevision_accepted article selection editType reason r now :
  nonempty (trim reason) = true → RevisionResult.accepted r = true →
  submitRevision article selection editType reason (Return r) now
  = Approved (approval_message r)
             (apply_revision article selection editType r now).
Proof. unfold submitRevision. by intros -> ->. Qed.

(** The "fix" branch with a selection maps [fix_section] over the
    sections. *)
Lemma revised_sections_fix_selection article sel r now :
  revised_sections article (Some sel) fix_ r now
  = Return (map (fix_section (Some sel) r) (RewikiArticle.sections article)).
Proof. unfold revised_sections. by destruct (truthy_content r). Qed.

Lemma fix_section_hit sel r c s :
  truthy_content r = Some c →
  includes (ArticleSection.content s) (text sel) = true →
  fix_section (Some sel) r s = ArticleSection.with_content c s.
Proof. unfold fix_section. by intros -> ->. Qed.

Lemma fix_section_miss sel r s :
  includes (ArticleSection.content s) (text sel) = false →
  fix_section (Some sel) r s = s.
Proof. unfold fix_section. by intros ->. Qed.

Lemma map_fix_section_miss sel r l :
  Forall (λ s, includes (ArticleSection.content s) (text sel) = false) l →
  map (fix_section (Some sel) r) l = l.
Proof.
  induction 1 as [|s l Hs _ IH]; cbn [map]; [done|].
  by rewrite fix_section_miss, IH.
Qed.

(** Without replacement text [fix_section] rebuilds each section with the
    content it had. *)
Lemma map_fix_section_no_content selection r l :
  truthy_content r = None → map (fix_section selection r) l = l.
Proof.
  intros Hr. induction l as [|s l IH]; simpl; [done|]. rewrite IH. f_equal.
  unfold fix_section. destruct selection as [sel|]; [|done].
  rewrite Hr. simpl. destruct (includes _ _); [apply with_content_same | done].
Qed.

(** C6.  A "fix" revision with a selected excerpt, accepted with the
    replacement text [R]: the published article has the same number of
    sections; each section whose body contains the excerpt has the body
    [R] (and its identifier and heading as before), and each section whose
    body does not contain it is as it was.  Several sections that contain
    the excerpt all receive [R]. *)
Theorem submitRevision_fix_selection article sel reason r R now :
  nonempty (trim reason) = true →
  RevisionResult.accepted r = true →
  RevisionResult.newContent r = Some R → nonempty R = true →
  ∃ updated,
    submitRevision article (Some sel) fix_ reason (Return r) now
    = Approved (approval_message r) (Return updated)
    ∧ length (RewikiArticle.sections updated)
      = length (RewikiArticle.sections article)
    ∧ ∀ i s, RewikiArticle.sections article !! i = Some s →
        RewikiArticle.sections updated !! i
        = Some (if includes (ArticleSection.content s) (text sel)
                then ArticleSection.mk (ArticleSection.id s)
                       (ArticleSection.heading s) R
                else s).
Proof.
  intros Hreason Hacc Hnew HR.
  pose proof (truthy_content_Some _ _ Hnew HR) as Hc.
  rewrite submitRevision_accepted by done.
  unfold apply_revision. rewrite revised_sections_fix_selection.
  eexists. split; [reflexivity|]. cbn [RewikiArticle.sections RewikiArticle.with_sections_changeLog].
  split; [by rewrite length_map|].
  intros i s Hi. change (map ?f ?l) with (f <$> l).
  rewrite list_lookup_fmap, Hi. cbn [fmap option_fmap option_map]. f_equal.
  destruct (includes _ _) eqn:Hin.
  - by rewrite (fix_section_hit _ _ _ _ Hc Hin).
  - by rewrite fix_section_miss.
Qed.

(** C4.  A "fix" revision whose excerpt occurs in the body of exactly one
    section, accepted with the replacement text [X]: in the published
    article that section has the body [X], and the sections before and
    after it are the ones the article had. *)
Theorem submitRevision_fix_one_section article sel reason r X pre s post now :
  nonempty (trim reason) = true →
  RevisionResult.accepted r = true →
  RevisionResult.newContent r = Some X → nonempty X = true →
  RewikiArticle.sections article = pre ++ s :: post →
  includes (ArticleSection.content s) (text sel) = true →
  Forall (λ t, includes (ArticleSection.content t) (text sel) = false)
         (pre ++ post) →
  ∃ updated,
    submitRevision article (Some sel) fix_ reason (Return r) now
    = Approved (approval_message r) (Return updated)
    ∧ RewikiArticle.sections updated
      = pre ++ ArticleSection.with_content X s :: post
    ∧ ArticleSection.content (ArticleSection.with_content X s) = X.
Proof.
  intros Hreason Hacc Hnew HX Hsecs Hin [Hpre Hpost]%Forall_app.
  pose proof (truthy_content_Some _ _ Hnew HX) as Hc.
  rewrite submitRevision_accepted by done.
  unfold apply_revision. rewrite revised_sections_fix_selection.
  eexists. split; [reflexivity|]. split; [|done].
  cbn [RewikiArticle.sections RewikiArticle.with_sections_changeLog].
  rewrite Hsecs, map_app. cbn [map].
  by rewrite !map_fix_section_miss, (fix_section_hit _ _ _ _ Hc Hin).
Qed.


(** C7.  A "fix" revision without a selection, accepted with the text
    [X]: when the article has a first section, the published article has
    [X] as the body of that section and every later section as it was.
    The assignment reads the first element of the array, so on an article
    without sections it raises [TypeError] and nothing is published; with
    at least one section that branch is not taken. *)
Theorem submitRevision_fix_general article reason r X now :
  nonempty (trim reason) = true →
  RevisionResult.accepted r = true →
  RevisionResult.newContent r = Some X → nonempty X = true →
  submitRevision article None fix_ reason (Return r) now
  = Approved (approval_message r)
      match RewikiArticle.sections article with
      | s0 :: rest =>
          Return (RewikiArticle.with_sections_changeLog
                    (ArticleSection.mk (ArticleSection.id s0)
                       (ArticleSection.heading s0) X :: rest)
                    (RewikiArticle.changeLog article ++ js " | Fixed info")
                    article)
      | [] => Throw TypeError
      end.
Proof.
  intros Hreason Hacc Hnew HX.
  pose proof (truthy_content_Some _ _ Hnew HX) as Hc.
  rewrite submitRevision_accepted by done. f_equal.
  unfold apply_revision, revised_sections. rewrite Hc.
  change (map (fix_section None r) ?l) with (map (λ s, s) l).
  rewrite map_id. by destruct (RewikiArticle.sections article).
Qed.

(** C10.  An accepted verdict without replacement text ([newContent]
    absent or empty), for either kind of edit and with or without a
    selection: the published article has the sections it had, equal in
    value, none added and none changed, and its change log has gained the
    note of the edit kind all the same, "Added section" for an "add"
    edit. *)
Theorem submitRevision_no_content article selection editType reason r now :
  nonempty (trim reason) = true →
  RevisionResult.accepted r = true →
  RevisionResult.newContent r = None ∨ RevisionResult.newContent r = Some [] →
  ∃ updated,
    submitRevision article selection editType reason (Return r) now
    = Approved (approval_message r) (Return updated)
    ∧ RewikiArticle.sections updated = RewikiArticle.sections article
    ∧ RewikiArticle.changeLog updated
      = RewikiArticle.changeLog article ++ js " | " ++
        match editType with
        | add => js "Added section"
        | fix_ => js "Fixed info"
        end.
Proof.
  intros Hreason Hacc Hnew%truthy_content_None.
  rewrite submitRevision_accepted by done.
  unfold apply_revision, revised_sections. rewrite Hnew.
  eexists. split.
  - destruct editType, selection; reflexivity.
  - cbn [RewikiArticle.sections RewikiArticle.changeLog
         RewikiArticle.with_sections_changeLog].
    split; [by apply map_fix_section_no_content | by destruct editType].
Qed.

End Revision.

(** The excerpt "753 BC" occurs in the first section of the sample article
    only. *)
Lemma submitRevision_fix_one_section_witness :
  ∃ updated,
    submitRevision sample_article (Some {| text := js "753 BC" |}) fix_
      (js "tradition, not fact")
      (Return (accepted_with (Some (js "By tradition Rome was founded in 753 BC."))))
      1700000050000
    = Approved (approval_message
                  (accepted_with (Some (js "By tradition Rome was founded in 753 BC."))))
               (Return updated)
    ∧ RewikiArticle.sections updated
      = [] ++ ArticleSection.with_content
                (js "By tradition Rome was founded in 753 BC.") sec_history
           :: [sec_geography]
    ∧ ArticleSection.content
        (ArticleSection.with_content
           (js "By tradition Rome was founded in 753 BC.") sec_history)
      = js "By tradition Rome was founded in 753 BC.".
Proof.
  apply (submitRevision_fix_one_section sample_article
           {| text := js "753 BC" |} (js "tradition, not fact")
           (accepted_with (Some (js "By tradition Rome was founded in 753 BC.")))
           (js "By tradition Rome was founded in 753 BC.")
           [] sec_history [sec_geography] 1700000050000).
  - reflexivity.
  - reflexivity.
  - reflexivity.
  - reflexivity.
  - reflexivity.
  - vm_compute. reflexivity.
  - apply Forall_cons_2; [reflexivity | apply Forall_nil_2].
Defined.

(** The excerpt "Rome" occurs in both sections of the sample article. *)
Lemma submitRevision_fix_selection_witness :
  ∃ updated,
    submitRevision sample_article (Some {| text := js "Rome" |}) fix_
      (js "say Roma") (Return (accepted_with (Some (js "Roma."))))
      1700000050000
    = Approved (approval_message (accepted_with (Some (js "Roma."))))
               (Return updated)
    ∧ length (RewikiArticle.sections updated)
      = length (RewikiArticle.sections sample_article)
    ∧ ∀ i s, RewikiArticle.sections sample_article !! i = Some s →
        RewikiArticle.sections updated !! i
        = Some (if includes (ArticleSection.content s) (js "Rome")
                then ArticleSection.mk (ArticleSection.id s)
                       (ArticleSection.heading s) (js "Roma.")
                else s).
Proof.
  apply (submitRevision_fix_selection sample_article {| text := js "Rome" |}
           (js "say Roma") (accepted_with (Some (js "Roma."))) (js "Roma.")
           1700000050000); reflexivity.
Defined.



Lemma submitRevision_fix_general_witness :
  submitRevision sample_article None fix_ (js "say Roma")
    (Return (accepted_with (Some (js "Roma.")))) 1700000050000
  = Approved (approval_message (accepted_with (Some (js "Roma."))))
      (Return (RewikiArticle.with_sections_changeLog
                 [ArticleSection.mk (js "s1") (js "History") (js "Roma.");
                  sec_geography]
                 (js "Shortened | Fixed info") sample_article)).
Proof.
  apply (submitRevision_fix_general sample_article (js "say Roma")
           (accepted_with (Some (js "Roma."))) (js "Roma.") 1700000050000);
    reflexivity.
Defined.

Lemma submitRevision_no_content_witness :
  ∃ updated,
    submitRevision sample_article None add (js "add the climate")
      (Return (accepted_with None)) 1700000050000
    = Approved (approval_message (accepted_with None)) (Return updated)
    ∧ RewikiArticle.sections updated = RewikiArticle.sections sample_article
    ∧ RewikiArticle.changeLog updated
      = RewikiArticle.changeLog sample_article ++ js " | "
        ++ js "Added section".
Proof.
  apply (submitRevision_no_content sample_article None add
           (js "add the climate") (accepted_with None) 1700000050000).
  - reflexivity.
  - reflexivity.
  - left. reflexivity.
Defined.

(** ** The history list *)

Section History.

Context `{Platform}.

Implicit Types (a b : RewikiArticle.t) (l arts : list RewikiArticle.t)
               (st : AppState) (storage : gmap jsstring jsstring)
               (t : jsstring).

Local Abbreviation topic := RewikiArticle.topic.

Lemma filter_all {A} (P : A → Prop) `{!∀ x, Decision (P x)} (k : list A) :
  Forall P k → filter P k = k.
Proof.
  induction 1 as [|x k Hx _ IH]; [done|].
  by rewrite filter_cons_True, IH.
Qed.

Lemma NoDup_topics_filter (P : RewikiArticle.t → Prop)
    `{!∀ x, Decision (P x)} l :
  NoDup (topic <$> l) → NoDup (topic <$> filter P l).
Proof.
  intros Hl. eapply sublist_NoDup; [exact Hl|].
  apply fmap_sublist, sublist_filter.
Qed.

Lemma topic_not_in_filter a l :
  topic a ∉ topic <$> filter (λ b, topic b ≠ topic a) l.
Proof.
  intros (b & Hb & [Hne _]%list_elem_of_filter)%list_elem_of_fmap. done.
Qed.

Lemma recent_first_NoDup l : NoDup (topic <$> recent_first l).
Proof.
  induction l as [|a l IH]; cbn [recent_first]; [constructor|].
  rewrite fmap_cons. apply NoDup_cons. split.
  - apply topic_not_in_filter.
  - by apply NoDup_topics_filter.
Qed.

(** What [recent_first] keeps: an entry of the list is kept exactly when no
    newer entry has its topic. *)
Lemma elem_of_recent_first a l :
  a ∈ recent_first l ↔
  ∃ newer older, l = newer ++ a :: older ∧ topic a ∉ topic <$> newer.
Proof.
  induction l as [|x l IH]; cbn [recent_first].
  - split; [by intros ?%elem_of_nil|]. by intros ([|??] & ? & ? & _).
  - rewrite elem_of_cons, list_elem_of_filter, IH. split.
    + intros [-> | [Hne (newer & older & -> & Hnew)]].
      * exists [], l. split; [done|]. apply not_elem_of_nil.
      * exists (x :: newer), older. split; [done|].
        rewrite fmap_cons, not_elem_of_cons. done.
    + intros ([|y newer] & older & Heq & Hnew); simplify_eq/=; [by left|].
      apply not_elem_of_cons in Hnew as [Hne Hnew]. right. eauto.
Qed.

(** Dropping the entries of one topic from a list without repeated topics
    removes at most one entry, so the first [n] entries that are left are
    found among the first [S n]. *)
Lemma take_filter_topic n t l :
  NoDup (topic <$> l) →
  take n (filter (λ b, topic b ≠ t) (take (S n) l))
  = take n (filter (λ b, topic b ≠ t) l).
Proof.
  revert n. induction l as [|x l IH]; intros n Hnd; [done|].
  rewrite fmap_cons in Hnd. apply NoDup_cons in Hnd as [Hx Hnd].
  cbn [take]. rewrite !filter_cons.
  destruct (decide (topic x ≠ t)) as [Hne | Heq].
  - destruct n as [|n]; [done|]. cbn [take]. f_equal. by apply IH.
  - apply dec_stable in Heq.
    assert (Forall (λ b, topic b ≠ t) l) as Hall.
    { apply Forall_forall. intros b Hb Hbt. apply Hx.
      rewrite Heq, <- Hbt. apply list_elem_of_fmap. eauto. }
    rewrite (filter_all _ l Hall).
    rewrite (filter_all _ (take n l)) by by apply Forall_take.
    rewrite take_take. f_equal. lia.
Qed.

Lemma history_addToHistory a st :
  history (addToHistory a st)
  = take 10 (a :: filter (λ b, topic b ≠ topic a) (history st)).
Proof. done. Qed.

Lemma insert_all_snoc arts a st :
  insert_all (arts ++ [a]) st = addToHistory a (insert_all arts st).
Proof. unfold insert_all. by rewrite foldl_snoc. Qed.

(** The list kept by the program is the first ten entries of the list the
    specification describes. *)
Lemma history_insert_all arts storage :
  history (insert_all arts (initial storage))
  = take 10 (recent_first (rev arts)).
Proof.
  induction arts as [|a arts IH] using rev_ind; [done|].
  rewrite insert_all_snoc, history_addToHistory, IH.
  rewrite rev_app_distr. cbn [rev app recent_first take]. f_equal.
  apply take_filter_topic, recent_first_NoDup.
Qed.

(** Every insertion overwrites the one storage entry of the history with
    the serialisation of the whole list. *)
Lemma localStorage_insert_all arts st :
  localStorage (insert_all arts st)
  = match arts with
    | [] => localStorage st
    | _ :: _ => <[history_key := JSON_stringify (history (insert_all arts st))]>
                  (localStorage st)
    end.
Proof.
  induction arts as [|a arts IH] using rev_ind; [done|].
  rewrite insert_all_snoc.
  assert (∀ s, localStorage (addToHistory a s)
               = <[history_key := JSON_stringify (history (addToHistory a s))]>
                   (localStorage s)) as Hadd by done.
  rewrite Hadd, IH.
  destruct arts as [|b arts]; cbn [app]; [done|].
  by rewrite insert_insert_eq.
Qed.

(** One insertion into any history without repeated topics, such as one
    read back from the storage: the article comes first, the bound and the
    absence of repeated topics hold afterwards. *)
Lemma addToHistory_preserves a st :
  NoDup (topic <$> history st) →
  (length (history (addToHistory a st)) ≤ 10)%nat
  ∧ NoDup (topic <$> history (addToHistory a st))
  ∧ head (history (addToHistory a st)) = Some a.
Proof.
  intros Hnd. rewrite history_addToHistory. split_and!.
  - rewrite length_take. lia.
  - eapply sublist_NoDup; [|apply fmap_sublist, sublist_take].
    rewrite fmap_cons. apply NoDup_cons. split.
    + apply topic_not_in_filter.
    + by apply NoDup_topics_filter.
  - done.
Qed.

(** C8.  After the insertions [arts] (the oldest first) into the empty
    history: the list has at most ten entries; no two of them have the
    same topic; it is the list of the inserted articles from the most
    recent to the oldest, where of the insertions with one topic only the
    most recent is kept, cut after ten entries; its first entry is the
    article inserted last; every entry is an inserted article after which
    no article of the same topic was inserted; and the storage is the
    initial one with the single entry of the history overwritten by the
    serialisation of the whole list (untouched when nothing was
    inserted). *)
Theorem history_invariant arts storage :
  let st := insert_all arts (initial storage) in
  (length (history st) ≤ 10)%nat
  ∧ NoDup (topic <$> history st)
  ∧ history st = take 10 (recent_first (rev arts))
  ∧ head (history st) = last arts
  ∧ (∀ a, a ∈ history st →
       ∃ older newer, arts = older ++ a :: newer
                      ∧ topic a ∉ topic <$> newer)
  ∧ localStorage st
    = match arts with
      | [] => storage
      | _ :: _ => <[history_key := JSON_stringify (history st)]> storage
      end.
Proof.
  intros st. subst st. rewrite history_insert_all. split_and!.
  - rewrite length_take. lia.
  - eapply sublist_NoDup; [apply recent_first_NoDup|].
    apply fmap_sublist, sublist_take.
  - done.
  - destruct arts as [|a arts] using rev_ind; [done|].
    rewrite rev_app_distr, last_snoc. done.
  - intros a Ha.
    assert (a ∈ recent_first (rev arts)) as Hin.
    { eapply elem_of_sublist; [exact Ha | apply sublist_take]. }
    apply elem_of_recent_first in Hin as (newer & older & Hrev & Hnew).
    exists (rev older), (rev newer). split.
    + rewrite <- (rev_involutive arts), Hrev, rev_app_distr. cbn [rev].
      by rewrite <- app_assoc.
    + intros (b & Hb & Hin)%list_elem_of_fmap. apply Hnew, list_elem_of_fmap.
      exists b. split; [done|]. by apply list_elem_of_In, in_rev, list_elem_of_In.
  - rewrite <- history_insert_all with (storage := storage).
    apply (localStorage_insert_all arts (initial storage)).
Qed.

End History.

(** The history after the twelve insertions: ten entries, the newest first;
    "A" is present through its second insertion, "B" has been dropped. *)
Example history_twelve_insertions :
  history (insert_all (H := sample_platform) twelve_insertions (initial ∅))
  = [article_on (js "K") 12; article_on (js "J") 11; article_on (js "I") 10;
     article_on (js "H") 9; article_on (js "G") 8; article_on (js "F") 7;
     article_on (js "E") 6; article_on (js "D") 5; article_on (js "C") 4;
     article_on (js "A") 3].
Proof. vm_compute. reflexivity. Qed.

Lemma history_invariant_witness :
  let st := insert_all (H := sample_platform) twelve_insertions (initial ∅) in
  (length (history st) ≤ 10)%nat
  ∧ NoDup (RewikiArticle.topic <$> history st)
  ∧ history st = take 10 (recent_first (rev twelve_insertions))
  ∧ head (history st) = Some (article_on (js "K") 12)
  ∧ localStorage st
    = <[history_key := JSON_stringify (Platform := sample_platform) (history st)]> ∅.
Proof.
  pose proof (history_invariant (H := sample_platform) twelve_insertions ∅)
    as (Hlen & Hnodup & Hhist & Hhead & _ & Hstore).
  cbv zeta. split_and!; [exact Hlen | exact Hnodup | exact Hhist | exact Hhead | exact Hstore].
Defined.

(** A line break after the closing fence keeps the pattern [\s*```$] from
    matching, and the fence stays in the cleaned text. *)
Example cleanJson_trailing_line_break :
  cleanJson (fenced (js "json") [10%N] (js "{}") [10%N] ++ [10%N])
  = js "{}" ++ [10%N] ++ fence.
Proof. vm_compute. reflexivity. Qed.

(** Fences in upper case, and without a tag. *)
Example cleanJson_fences :
  cleanJson (fenced (js "JSON") [13%N; 10%N] rome_text [10%N]) = rome_text
  ∧ cleanJson (fenced [] [10%N] rome_text [10%N]) = rome_text
  ∧ cleanJson (js "  " ++ rome_text ++ [10%N]) = rome_text.
Proof. split_and!; vm_compute; reflexivity. Qed.


(** * Further properties *)

(** ** More on fence stripping *)

Section CleanJsonMore.

Implicit Types P tag w s r q t : jsstring.

Lemma part_of_refl s : part_of s s.
Proof. exists [], []. by rewrite app_nil_r. Qed.

Lemma part_of_trans s t u : part_of s t → part_of t u → part_of s u.
Proof.
  intros (a & b & ->) (c & d & ->). exists (c ++ a), (b ++ d).
  by rewrite <- !app_assoc.
Qed.

Lemma part_of_suffix pre s : part_of s (pre ++ s).
Proof. exists pre, []. by rewrite app_nil_r. Qed.

Lemma part_of_prefix s post : part_of s (s ++ post).
Proof. by exists [], post. Qed.

Lemma strip_prefix_Some p s r : strip_prefix p s = Some r → s = p ++ r.
Proof.
  revert s. induction p as [|a p IH]; intros [|b s]; simpl; try congruence.
  destruct (a =? b)%N eqn:E; [|done]. apply N.eqb_eq in E as ->.
  intros Hr. by rewrite (IH _ Hr).
Qed.

Lemma strip_prefix_ci_part p s r : strip_prefix_ci p s = Some r → part_of r s.
Proof.
  revert s. induction p as [|a p IH]; intros [|b s]; simpl; try congruence.
  - intros [= <-]. apply part_of_refl.
  - intros [= <-]. apply part_of_refl.
  - destruct (canonicalize a =? canonicalize b)%N; [|done].
    intros Hr%IH. eapply part_of_trans; [exact Hr|]. apply (part_of_suffix [b]).
Qed.

Lemma skip_ws_part s : part_of (skip_ws s) s.
Proof.
  induction s as [|c s IH]; simpl; [apply part_of_refl|].
  destruct (is_ws c); [|apply part_of_refl].
  eapply part_of_trans; [exact IH|]. apply (part_of_suffix [c]).
Qed.

Lemma part_of_rev s t : part_of s t → part_of (rev s) (rev t).
Proof.
  intros (a & b & ->). exists (rev b), (rev a).
  by rewrite !rev_app_distr, <- app_assoc.
Qed.

Lemma skip_ws_end_part s : part_of (skip_ws_end s) s.
Proof.
  unfold skip_ws_end.
  pose proof (part_of_rev _ _ (skip_ws_part (rev s))) as Hpart.
  by rewrite rev_involutive in Hpart.
Qed.

Lemma strip_json_fence_part t : part_of (strip_json_fence t) t.
Proof.
  unfold strip_json_fence.
  destruct (strip_prefix fence t) as [r|] eqn:E; [|apply part_of_refl].
  destruct (strip_prefix_ci (js "json") r) as [r'|] eqn:E'; [|apply part_of_refl].
  apply strip_prefix_Some in E as ->.
  eapply part_of_trans; [apply skip_ws_part|].
  eapply part_of_trans; [by eapply strip_prefix_ci_part|]. apply part_of_suffix.
Qed.

Lemma strip_open_fence_part t : part_of (strip_open_fence t) t.
Proof.
  unfold strip_open_fence.
  destruct (strip_prefix fence t) as [r|] eqn:E; [|apply part_of_refl].
  apply strip_prefix_Some in E as ->.
  eapply part_of_trans; [apply skip_ws_part | apply part_of_suffix].
Qed.

Lemma strip_close_fence_part t : part_of (strip_close_fence t) t.
Proof.
  unfold strip_close_fence.
  destruct (strip_prefix fence (rev t)) as [r|] eqn:E; [|apply part_of_refl].
  apply strip_prefix_Some in E.
  assert (t = rev r ++ rev fence) as ->.
  { by rewrite <- rev_app_distr, <- E, rev_involutive. }
  eapply part_of_trans; [apply part_of_rev, skip_ws_part | apply part_of_prefix].
Qed.

(** X1.  [cleanJson] only removes text from the two ends of its argument:
    the result occurs in the argument as one contiguous run, so no character
    is added or altered; and the result has no white space at either end. *)
Theorem cleanJson_part_of_input t :
  part_of (cleanJson t) t
  ∧ trim (cleanJson t) = cleanJson t
  ∧ (length (cleanJson t) ≤ length t)%nat.
Proof.
  assert (part_of (cleanJson t) t) as Hpart.
  { unfold cleanJson, trim.
    eapply part_of_trans; [apply skip_ws_end_part|].
    eapply part_of_trans; [apply skip_ws_part|].
    eapply part_of_trans; [apply strip_close_fence_part|].
    eapply part_of_trans; [apply strip_open_fence_part|].
    apply strip_json_fence_part. }
  split_and!; [done | apply trim_idemp |].
  destruct Hpart as (pre & post & Ht).
  rewrite Ht at 2. rewrite !length_app. lia.
Qed.

Lemma skip_ws_end_app s P d q :
  skip_ws (rev P) = d :: q → skip_ws_end (s ++ P) = s ++ skip_ws_end P.
Proof.
  intros Hd. unfold skip_ws_end.
  rewrite rev_app_distr, (skip_ws_app _ _ _ _ Hd), Hd.
  change (d :: q ++ rev s) with ((d :: q) ++ rev s).
  by rewrite rev_app_distr, rev_involutive.
Qed.

Lemma skip_ws_end_fixed s d q :
  rev s = d :: q → is_ws d = false → skip_ws_end s = s.
Proof.
  intros Hs Hd. unfold skip_ws_end.
  by rewrite Hs, skip_ws_fixed, <- Hs, rev_involutive.
Qed.

Lemma skip_ws_end_all_ws s w : all_ws w = true → skip_ws_end (s ++ w) = skip_ws_end s.
Proof.
  intros Hw. unfold skip_ws_end.
  by rewrite rev_app_distr, skip_ws_all_ws by by apply rev_all_ws.
Qed.

(** The trailing white space of a text that is not blank can be cut off
    once only. *)
Lemma skip_ws_end_idemp s : skip_ws_end (skip_ws_end s) = skip_ws_end s.
Proof. unfold skip_ws_end. by rewrite rev_involutive, skip_ws_idemp. Qed.

(** The opening fence, its tag and the white space after them, whatever
    follows the payload. *)
Lemma strip_open_rest tag w P rest c r :
  tag = [] ∨ json_tag tag = true → all_ws w = true →
  skip_ws P = c :: r → json_first c = true →
  strip_open_fence (strip_json_fence (fence ++ tag ++ w ++ P ++ rest))
  = (c :: r) ++ rest.
Proof.
  intros Htag Hw Hc Hfirst.
  assert (skip_ws (w ++ P ++ rest) = (c :: r) ++ rest) as Hrest.
  { rewrite skip_ws_all_ws by done. by apply skip_ws_app. }
  assert (strip_prefix fence ((c :: r) ++ rest) = None) as Hbody.
  { apply strip_prefix_fence_head. by apply json_first_not_backquote. }
  unfold strip_json_fence. rewrite strip_prefix_app.
  destruct Htag as [-> | Htag].
  - rewrite app_nil_l, (no_json_tag _ _ _ Hrest Hfirst).
    unfold strip_open_fence. by rewrite strip_prefix_app.
  - unfold json_tag in Htag.
    destruct (strip_prefix_ci (js "json") tag) as [[|]|] eqn:E; try done.
    rewrite (strip_prefix_ci_app _ _ _ E), Hrest.
    unfold strip_open_fence. by rewrite Hbody.
Qed.

Lemma nonempty_ws_rev w :
  all_ws w = true → nonempty w = true →
  ∃ b rw, rev w = b :: rw ∧ is_ws b = true.
Proof.
  intros Hw Hne. destruct (rev w) as [|b rw] eqn:E.
  - apply (f_equal (@rev N)) in E. rewrite rev_involutive in E.
    by rewrite E in Hne.
  - exists b, rw. split; [done|].
    apply rev_all_ws in Hw. rewrite E in Hw. simpl in Hw.
    by apply andb_prop in Hw as [? _].
Qed.

(** X2.  White space after the closing fence (a final line break, say)
    keeps the closing fence from being recognised: what [cleanJson] returns
    is the payload without its leading white space, followed by the white
    space before the closing fence and by the closing fence itself, and so
    has not the outer shape of a JSON text. *)
Theorem cleanJson_space_after_fence tag w1 P w2 w :
  tag = [] ∨ json_tag tag = true →
  all_ws w1 = true → all_ws w2 = true → json_edges P = true →
  all_ws w = true → nonempty w = true →
  cleanJson (fenced tag w1 P w2 ++ w) = skip_ws P ++ w2 ++ fence
  ∧ json_edges (cleanJson (fenced tag w1 P w2 ++ w)) = false.
Proof.
  intros Htag Hw1 Hw2 HP Hw Hne.
  destruct (json_edges_inv _ HP) as (c & r & d & q & Hc & Hfirst & _).
  destruct (nonempty_ws_rev _ Hw Hne) as (b & rw & Hrev & Hb).
  assert (cleanJson (fenced tag w1 P w2 ++ w) = skip_ws P ++ w2 ++ fence) as Heq.
  { unfold cleanJson, fenced.
    replace ((fence ++ tag ++ w1 ++ P ++ w2 ++ fence) ++ w)
      with (fence ++ tag ++ w1 ++ P ++ (w2 ++ fence ++ w))
      by (by rewrite <- !app_assoc).
    rewrite (strip_open_rest _ _ _ _ _ _ Htag Hw1 Hc Hfirst).
    assert (strip_close_fence ((c :: r) ++ w2 ++ fence ++ w)
            = (c :: r) ++ w2 ++ fence ++ w) as ->.
    { unfold strip_close_fence.
      replace ((c :: r) ++ w2 ++ fence ++ w)
        with (((c :: r) ++ w2 ++ fence) ++ w) by (by rewrite <- !app_assoc).
      rewrite rev_app_distr, Hrev. cbn [app].
      by rewrite strip_prefix_fence_head by by apply ws_not_backquote. }
    unfold trim. cbn [app].
    rewrite skip_ws_fixed by by eapply skip_ws_head.
    replace (c :: r ++ w2 ++ fence ++ w)
      with (((c :: r) ++ w2 ++ fence) ++ w)
      by (by rewrite <- !app_assoc).
    rewrite skip_ws_end_all_ws by done.
    rewrite Hc.
    eapply skip_ws_end_fixed; [rewrite !rev_app_distr; reflexivity | reflexivity]. }
  split; [done|]. rewrite Heq, Hc. unfold json_edges.
  cbn [app]. rewrite skip_ws_fixed by by eapply skip_ws_head.
  replace (c :: r ++ w2 ++ fence) with ((c :: r ++ w2) ++ fence)
    by (cbn [app]; by rewrite app_assoc).
  rewrite rev_app_distr. change (rev fence) with [96; 96; 96]%N. cbn [app].
  rewrite skip_ws_fixed by reflexivity.
  change (json_last 96) with false. apply andb_false_r.
Qed.

Lemma cleanJson_space_after_fence_witness :
  cleanJson (fenced (js "json") [10%N] rome_text [10%N] ++ [10%N])
  = skip_ws rome_text ++ [10%N] ++ fence
  ∧ json_edges (cleanJson (fenced (js "json") [10%N] rome_text [10%N] ++ [10%N]))
    = false.
Proof.
  apply (cleanJson_space_after_fence (js "json") [10%N] rome_text [10%N] [10%N]).
  - right. reflexivity.
  - reflexivity.
  - reflexivity.
  - vm_compute. reflexivity.
  - reflexivity.
  - reflexivity.
Defined.

Lemma skip_ws_nil s : skip_ws s = [] → all_ws s = true.
Proof.
  induction s as [|c s IH]; simpl; [done|].
  destruct (is_ws c); [exact IH | done].
Qed.

(** A text that is not blank has a last significant character. *)
Lemma not_blank_last P :
  all_ws P = false → ∃ d q, skip_ws (rev P) = d :: q ∧ is_ws d = false.
Proof.
  intros HP. destruct (skip_ws (rev P)) as [|d q] eqn:E.
  - apply skip_ws_nil, rev_all_ws in E. rewrite rev_involutive in E. congruence.
  - exists d, q. split; [done|]. by eapply skip_ws_head.
Qed.

Lemma skip_ws_end_not_blank P d q :
  skip_ws (rev P) = d :: q → ∃ p, rev (skip_ws_end P) = d :: p.
Proof. intros Hd. unfold skip_ws_end. rewrite rev_involutive, Hd. eauto. Qed.

(** X3.  White space before the opening fence keeps the opening fence from
    being recognised, whatever its tag: the closing fence goes, the opening
    fence and the tag stay at the head of what [cleanJson] returns, which
    has not the outer shape of a JSON text. *)
Theorem cleanJson_space_before_fence w tag w1 P w2 :
  all_ws w = true → nonempty w = true → all_ws w2 = true → all_ws P = false →
  cleanJson (w ++ fenced tag w1 P w2) = fence ++ tag ++ w1 ++ skip_ws_end P
  ∧ json_edges (cleanJson (w ++ fenced tag w1 P w2)) = false.
Proof.
  intros Hw Hne Hw2 HP.
  destruct (not_blank_last _ HP) as (d & q & Hd & Hdws).
  destruct (skip_ws_end_not_blank _ _ _ Hd) as (p & Hlast).
  destruct w as [|a w']; [done|].
  assert (is_ws a = true) as Ha by (simpl in Hw; by apply andb_prop in Hw as [? _]).
  assert (strip_prefix fence ((a :: w') ++ fenced tag w1 P w2) = None) as Hopen.
  { apply strip_prefix_fence_head. by apply ws_not_backquote. }
  assert (cleanJson ((a :: w') ++ fenced tag w1 P w2)
          = fence ++ tag ++ w1 ++ skip_ws_end P) as Heq.
  { unfold cleanJson.
    assert (strip_json_fence ((a :: w') ++ fenced tag w1 P w2)
            = (a :: w') ++ fenced tag w1 P w2) as ->
      by (unfold strip_json_fence; by rewrite Hopen).
    assert (strip_open_fence ((a :: w') ++ fenced tag w1 P w2)
            = (a :: w') ++ fenced tag w1 P w2) as ->
      by (unfold strip_open_fence; by rewrite Hopen).
    unfold fenced.
    replace ((a :: w') ++ fence ++ tag ++ w1 ++ P ++ w2 ++ fence)
      with (((a :: w') ++ fence ++ tag ++ w1 ++ P) ++ w2 ++ fence)
      by (by rewrite <- !app_assoc).
    rewrite strip_close_fence_fenced by done.
    replace ((a :: w') ++ fence ++ tag ++ w1 ++ P)
      with (((a :: w') ++ fence ++ tag ++ w1) ++ P)
      by (by rewrite <- !app_assoc).
    rewrite (skip_ws_end_app _ _ _ _ Hd). unfold trim.
    rewrite <- !app_assoc, skip_ws_all_ws by done.
    change (fence ++ ?x) with (96%N :: 96%N :: 96%N :: x).
    rewrite skip_ws_fixed by reflexivity.
    eapply skip_ws_end_fixed; [|exact Hdws].
    change (96%N :: 96%N :: 96%N :: ?x) with (fence ++ x).
    rewrite !app_assoc, rev_app_distr, Hlast. reflexivity. }
  split; [done|]. rewrite Heq. unfold json_edges.
  change (fence ++ ?x) with (96%N :: 96%N :: 96%N :: x).
  rewrite skip_ws_fixed by reflexivity.
  change (json_first 96) with false. case_match; reflexivity.
Qed.

Lemma cleanJson_space_before_fence_witness :
  cleanJson ([10%N] ++ fenced (js "json") [10%N] rome_text [10%N])
  = fence ++ js "json" ++ [10%N] ++ skip_ws_end rome_text
  ∧ json_edges (cleanJson ([10%N] ++ fenced (js "json") [10%N] rome_text [10%N]))
    = false.
Proof.
  apply (cleanJson_space_before_fence [10%N] (js "json") [10%N] rome_text [10%N]).
  - reflexivity.
  - reflexivity.
  - reflexivity.
  - vm_compute. reflexivity.
Defined.

(** X4.  Only the tag [json] is taken off with the opening fence.  A fence
    with another tag (one that does not begin with the letters of [json])
    loses its backquotes and keeps its tag, which then stands at the head of
    what [cleanJson] returns. *)
Theorem cleanJson_other_tag c tag w1 P w2 :
  is_ws c = false →
  strip_prefix_ci (js "json") ((c :: tag) ++ w1 ++ P ++ w2 ++ fence) = None →
  all_ws w2 = true → all_ws P = false →
  cleanJson (fenced (c :: tag) w1 P w2) = (c :: tag) ++ w1 ++ skip_ws_end P.
Proof.
  intros Hc Htag Hw2 HP.
  destruct (not_blank_last _ HP) as (d & q & Hd & Hdws).
  destruct (skip_ws_end_not_blank _ _ _ Hd) as (p & Hlast).
  unfold cleanJson, fenced.
  assert (strip_json_fence (fence ++ (c :: tag) ++ w1 ++ P ++ w2 ++ fence)
          = fence ++ (c :: tag) ++ w1 ++ P ++ w2 ++ fence) as ->.
  { unfold strip_json_fence. by rewrite strip_prefix_app, Htag. }
  unfold strip_open_fence. rewrite strip_prefix_app.
  cbn [app]. rewrite skip_ws_fixed by done.
  replace (c :: tag ++ w1 ++ P ++ w2 ++ fence)
    with (((c :: tag) ++ w1 ++ P) ++ w2 ++ fence)
    by (cbn [app]; by rewrite <- !app_assoc).
  rewrite strip_close_fence_fenced by done.
  replace ((c :: tag) ++ w1 ++ P) with (((c :: tag) ++ w1) ++ P)
    by (by rewrite <- !app_assoc).
  rewrite (skip_ws_end_app _ _ _ _ Hd), <- app_assoc. unfold trim. cbn [app].
  rewrite skip_ws_fixed by done.
  eapply skip_ws_end_fixed; [|exact Hdws].
  change (c :: tag ++ w1 ++ skip_ws_end P)
    with ((c :: tag) ++ w1 ++ skip_ws_end P).
  rewrite app_assoc, rev_app_distr, Hlast. reflexivity.
Qed.

Lemma cleanJson_other_tag_witness :
  cleanJson (fenced (js "javascript") [10%N] rome_text [10%N])
  = js "javascript" ++ [10%N] ++ skip_ws_end rome_text.
Proof.
  apply (cleanJson_other_tag 106%N (js "avascript") [10%N] rome_text [10%N]).
  - reflexivity.
  - vm_compute. reflexivity.
  - reflexivity.
  - vm_compute. reflexivity.
Defined.

End CleanJsonMore.

(** ** More on the generator *)

Section GeneratorMore.

Context `{Platform}.

Implicit Types (topic text : jsstring) (lang : Language) (env : GenEnv)
               (log : list Request) (m : gmap jsstring JSON).

Lemma first_inline_None ps :
  first_inline ps = None ↔ Forall (λ p, inlineData p = None) ps.
Proof.
  induction ps as [|p ps IH]; simpl; [by split; [constructor|]|].
  destruct (inlineData p) as [d|] eqn:E.
  - split; [done|]. intros Hall. apply Forall_cons in Hall as [Hp _]. congruence.
  - rewrite IH. split; [by constructor|]. by intros [_ ?]%Forall_cons.
Qed.

Lemma first_inline_Some ps uri :
  first_inline ps = Some uri →
  ∃ mime payload, uri = js "data:" ++ mime ++ js ";base64," ++ payload.
Proof.
  induction ps as [|p ps IH]; simpl; [done|].
  destruct (inlineData p) as [d|]; [|exact IH].
  intros [= <-]. by eexists _, _.
Qed.

Lemma generateTopicImage_synthesized prompt reply log :
  generateTopicImage prompt reply log
  = (Return (synthesized reply), log ++ [ImageRequest prompt]).
Proof.
  unfold generateTopicImage, try_catch, mbind, run_bind, generateContent.
  by destruct reply.
Qed.

(** X5.  [generateTopicImage] never throws and makes one request.  What it
    returns is either nothing, exactly when the request was rejected or no
    part of the reply carries inline data, or a data URI, which begins with
    [data:] and is therefore never the empty string. *)
Theorem generateTopicImage_result prompt reply log :
  generateTopicImage prompt reply log
  = (Return (synthesized reply), log ++ [ImageRequest prompt])
  ∧ (synthesized reply = None ↔
     match reply with
     | Return parts => Forall (λ p, inlineData p = None) (default [] parts)
     | Throw _ => True
     end)
  ∧ (∀ uri, synthesized reply = Some uri →
       nonempty uri = true
       ∧ ∃ mime payload, uri = js "data:" ++ mime ++ js ";base64," ++ payload).
Proof.
  split_and!.
  - apply generateTopicImage_synthesized.
  - destruct reply as [parts|e]; simpl; [apply first_inline_None | done].
  - intros uri Huri. destruct reply as [parts|e]; simpl in Huri; [|done].
    destruct (first_inline_Some _ _ Huri) as (mime & payload & ->).
    split; [done | by eexists _, _].
Qed.

Lemma generateTopicImage_result_witness :
  synthesized png_reply = Some (js "data:image/png;base64,iVBORw0KGgo=")
  ∧ nonempty (js "data:image/png;base64,iVBORw0KGgo=") = true.
Proof.
  split; [reflexivity|].
  destruct (generateTopicImage_result None png_reply []) as (_ & _ & Huri).
  apply (Huri (js "data:image/png;base64,iVBORw0KGgo=")). reflexivity.
Defined.

Lemma synthesized_nonempty reply uri :
  synthesized reply = Some uri → nonempty uri = true.
Proof.
  intros Huri. destruct reply as [parts|e]; simpl in Huri; [|done].
  by destruct (first_inline_Some _ _ Huri) as (mime & payload & ->).
Qed.

(** The first part of the assembly on an object. *)
Lemma stamp_object_spec lang env m log :
  ∃ m', stamp lang env (JObj m) log = (Return (JObj m'), log)
    ∧ m' !! js "id" = Some (JStr (toString (now env)))
    ∧ m' !! js "language" = Some (JStr (lang_tag lang))
    ∧ m' !! js "lastUpdated"
      = (if truthy (m !! js "lastUpdated") then m !! js "lastUpdated"
         else Some (JStr (today env)))
    ∧ ∀ k, k ≠ js "id" → k ≠ js "language" → k ≠ js "lastUpdated" →
           m' !! k = m !! k.
Proof.
  unfold stamp, mbind, run_bind, assign, mret, run_ret. cbn [get_prop].
  rewrite !(lookup_insert_ne _ _ (js "lastUpdated")) by js_neq.
  destruct (truthy (m !! js "lastUpdated")) eqn:Ht; eexists;
    (split; [reflexivity|]); split_and!.
  - rewrite lookup_insert_ne by js_neq. apply lookup_insert_eq.
  - apply lookup_insert_eq.
  - by rewrite !lookup_insert_ne by js_neq.
  - intros k ? ? ?. by rewrite !lookup_insert_ne.
  - rewrite !lookup_insert_ne by js_neq. apply lookup_insert_eq.
  - rewrite lookup_insert_ne by js_neq. apply lookup_insert_eq.
  - apply lookup_insert_eq.
  - intros k ? ? ?. by rewrite !lookup_insert_ne.
Qed.

(** The second part of the assembly on an object. *)
Lemma attach_image_object_spec env m log :
  ∃ m', attach_image env (JObj m) log
        = (Return (JObj m'),
           log ++ match image_prompt (JObj m) with
                  | Some p => [ImageRequest p]
                  | None => []
                  end)
    ∧ m' !! js "generatedImage"
      = match image_prompt (JObj m), synthesized (image_reply env) with
        | Some _, Some uri => Some (JStr uri)
        | _, _ => m !! js "generatedImage"
        end
    ∧ ∀ k, k ≠ js "generatedImage" → m' !! k = m !! k.
Proof.
  unfold attach_image, image_prompt. cbn [get_prop].
  destruct (m !! js "imagePrompts") as [prompts|];
    [|exists m; by rewrite app_nil_r].
  destruct (truthy _ && length_positive _); [|exists m; by rewrite app_nil_r].
  unfold mbind, run_bind.
  rewrite generateTopicImage_synthesized.
  destruct (synthesized (image_reply env)) as [uri|] eqn:Huri; [|by exists m].
  rewrite (synthesized_nonempty _ _ Huri). cbn [assign].
  eexists. split; [reflexivity|]. split; [apply lookup_insert_eq|].
  intros k Hk. by rewrite lookup_insert_ne.
Qed.

Lemma image_prompt_same m m' :
  m' !! js "imagePrompts" = m !! js "imagePrompts" →
  image_prompt (JObj m') = image_prompt (JObj m).
Proof. unfold image_prompt. cbn [get_prop]. by intros ->. Qed.

(** The generator on a reply that parses to an object, in full. *)
Lemma generateRewikiArticle_object_spec topic lang env c text m log :
  text_reply env = Return (Some (c :: text)) →
  JSON_parse (cleanJson (c :: text)) = Some (JObj m) →
  ∃ m', generateRewikiArticle topic lang env log
        = (Return (JObj m'),
           log ++ ArticleRequest topic lang
               :: match image_prompt (JObj m) with
                  | Some p => [ImageRequest p]
                  | None => []
                  end)
    ∧ m' !! js "lastUpdated"
      = (if truthy (m !! js "lastUpdated") then m !! js "lastUpdated"
         else Some (JStr (today env)))
    ∧ m' !! js "generatedImage"
      = match image_prompt (JObj m), synthesized (image_reply env) with
        | Some _, Some uri => Some (JStr uri)
        | _, _ => m !! js "generatedImage"
        end
    ∧ ∀ k, k ≠ js "id" → k ≠ js "language" → k ≠ js "lastUpdated" →
           k ≠ js "generatedImage" → m' !! k = m !! k.
Proof.
  intros Hreply Hparse.
  rewrite (generateRewikiArticle_text _ _ _ _ _ _ Hreply), Hparse.
  unfold assemble, mbind, run_bind.
  destruct (stamp_object_spec lang env m (log ++ [ArticleRequest topic lang]))
    as (m1 & -> & _ & _ & Hdate & Hframe1).
  destruct (attach_image_object_spec env m1 (log ++ [ArticleRequest topic lang]))
    as (m2 & -> & Himage & Hframe2).
  assert (image_prompt (JObj m1) = image_prompt (JObj m)) as Hprompt
    by (apply image_prompt_same, Hframe1; js_neq).
  rewrite Hprompt in *. exists m2. split_and!.
  - by rewrite <- app_assoc.
  - rewrite Hframe2 by js_neq. exact Hdate.
  - rewrite Himage. rewrite Hframe1 by js_neq. done.
  - intros k ? ? ? ?. rewrite Hframe2 by done. by apply Hframe1.
Qed.

End GeneratorMore.

(** X6.  The date of a generated article: a payload that carries a truthy
    [lastUpdated] keeps it; otherwise (the property is missing, [null],
    [false], zero or the empty string) the article gets the date of the
    day. *)
Theorem generateRewikiArticle_lastUpdated
    `{Platform} topic lang env c text m log :
  text_reply env = Return (Some (c :: text)) →
  JSON_parse (cleanJson (c :: text)) = Some (JObj m) →
  ∃ m' log',
    generateRewikiArticle topic lang env log = (Return (JObj m'), log')
    ∧ m' !! js "lastUpdated"
      = (if truthy (m !! js "lastUpdated") then m !! js "lastUpdated"
         else Some (JStr (today env))).
Proof.
  intros Hreply Hparse.
  destruct (generateRewikiArticle_object_spec topic lang env c text m log
              Hreply Hparse) as (m' & Hrun & Hdate & _).
  eexists m', _. split; [exact Hrun | done].
Qed.

Lemma generateRewikiArticle_lastUpdated_witness :
  (∃ m' log',
     generateRewikiArticle (H := paris_platform) (js "Paris") en
       (paris_env png_reply) [] = (Return (JObj m'), log')
     ∧ m' !! js "lastUpdated" = Some (JStr (js "May 2024")))
  ∧ (∃ m' log',
       generateRewikiArticle (H := sample_platform) (js "Rome") en
         (sample_env rome_text 1700000000000) [] = (Return (JObj m'), log')
       ∧ m' !! js "lastUpdated" = Some (JStr (js "11/2/2026"))).
Proof.
  split.
  - destruct (generateRewikiArticle_lastUpdated (H := paris_platform)
                (js "Paris") en (paris_env png_reply) 123%N (tail paris_text)
                paris_props [] eq_refl eq_refl)
      as (m' & log' & Hrun & Hdate).
    exists m', log'. split; [exact Hrun|]. rewrite Hdate. reflexivity.
  - destruct (generateRewikiArticle_lastUpdated (H := sample_platform)
                (js "Rome") en (sample_env rome_text 1700000000000) 123%N
                (tail rome_text) rome_props [] eq_refl eq_refl)
      as (m' & log' & Hrun & Hdate).
    exists m', log'. split; [exact Hrun|]. rewrite Hdate. reflexivity.
Defined.

(** X7.  Apart from [id], [language], [lastUpdated] and [generatedImage]
    the generator returns every property of the parsed object as it came,
    present or absent: nothing is checked, completed or removed. *)
Theorem generateRewikiArticle_keeps_payload
    `{Platform} topic lang env c text m log :
  text_reply env = Return (Some (c :: text)) →
  JSON_parse (cleanJson (c :: text)) = Some (JObj m) →
  ∃ m' log',
    generateRewikiArticle topic lang env log = (Return (JObj m'), log')
    ∧ ∀ k, k ≠ js "id" → k ≠ js "language" → k ≠ js "lastUpdated" →
           k ≠ js "generatedImage" → m' !! k = m !! k.
Proof.
  intros Hreply Hparse.
  destruct (generateRewikiArticle_object_spec topic lang env c text m log
              Hreply Hparse) as (m' & Hrun & _ & _ & Hframe).
  eexists m', _. split; [exact Hrun | done].
Qed.

Lemma generateRewikiArticle_keeps_payload_witness :
  ∃ m' log',
    generateRewikiArticle (H := sample_platform) (js "Rome") en
      (sample_env rome_text 1700000000000) [] = (Return (JObj m'), log')
    ∧ m' !! js "topic" = Some (JStr (js "Rome"))
    ∧ m' !! js "sections" = None.
Proof.
  destruct (generateRewikiArticle_keeps_payload (H := sample_platform)
              (js "Rome") en (sample_env rome_text 1700000000000)
              123%N (tail rome_text) rome_props [] eq_refl eq_refl)
    as (m' & log' & Hrun & Hframe).
  exists m', log'. split; [exact Hrun|]. split.
  - rewrite Hframe by js_neq. reflexivity.
  - rewrite Hframe by js_neq. reflexivity.
Defined.

(** X8.  A failure of the image step does not fail the generation.  When
    the image request is rejected, or its reply carries no inline data, the
    article is returned all the same and its [generatedImage] is whatever
    the payload held under that name (nothing, unless the model echoed the
    property). *)
Theorem generateRewikiArticle_image_failure
    `{Platform} topic lang env c text m log :
  text_reply env = Return (Some (c :: text)) →
  JSON_parse (cleanJson (c :: text)) = Some (JObj m) →
  synthesized (image_reply env) = None →
  ∃ m' log',
    generateRewikiArticle topic lang env log = (Return (JObj m'), log')
    ∧ m' !! js "generatedImage" = m !! js "generatedImage".
Proof.
  intros Hreply Hparse Hnone.
  destruct (generateRewikiArticle_object_spec topic lang env c text m log
              Hreply Hparse) as (m' & Hrun & _ & Himage & _).
  eexists m', _. split; [exact Hrun|].
  rewrite Himage, Hnone. by destruct (image_prompt (JObj m)).
Qed.

Lemma generateRewikiArticle_image_failure_witness :
  ∃ m' log',
    generateRewikiArticle (H := paris_platform) (js "Paris") en
      (paris_env (Throw (ServiceError (js "quota")))) []
    = (Return (JObj m'), log')
    ∧ m' !! js "generatedImage" = None.
Proof.
  apply (generateRewikiArticle_image_failure (H := paris_platform) (js "Paris")
           en (paris_env (Throw (ServiceError (js "quota"))))
           123%N (tail paris_text) paris_props []); reflexivity.
Defined.

(** X9.  When [imagePrompts] of the payload is truthy and has a positive
    length, the image is requested after the article request, with the first
    prompt as its subject; when the reply carries inline data, the data URI
    of the first such part becomes [generatedImage], replacing what the
    payload held. *)
Theorem generateRewikiArticle_image_success
    `{Platform} topic lang env c text m p uri log :
  text_reply env = Return (Some (c :: text)) →
  JSON_parse (cleanJson (c :: text)) = Some (JObj m) →
  image_prompt (JObj m) = Some p →
  synthesized (image_reply env) = Some uri →
  ∃ m',
    generateRewikiArticle topic lang env log
    = (Return (JObj m'),
       log ++ [ArticleRequest topic lang; ImageRequest p])
    ∧ m' !! js "generatedImage" = Some (JStr uri).
Proof.
  intros Hreply Hparse Hprompt Huri.
  destruct (generateRewikiArticle_object_spec topic lang env c text m log
              Hreply Hparse) as (m' & Hrun & _ & Himage & _).
  rewrite Hprompt in Hrun, Himage. rewrite Huri in Himage. by exists m'.
Qed.

Lemma generateRewikiArticle_image_success_witness :
  ∃ m',
    generateRewikiArticle (H := paris_platform) (js "Paris") en
      (paris_env png_reply) []
    = (Return (JObj m'),
       [] ++ [ArticleRequest (js "Paris") en;
              ImageRequest (Some (JStr (js "The Seine")))])
    ∧ m' !! js "generatedImage"
      = Some (JStr (js "data:image/png;base64,iVBORw0KGgo=")).
Proof.
  apply (generateRewikiArticle_image_success (H := paris_platform) (js "Paris")
           en (paris_env png_reply) 123%N (tail paris_text) paris_props
           (Some (JStr (js "The Seine")))
           (js "data:image/png;base64,iVBORw0KGgo=") []); reflexivity.
Defined.

(** X10.  Without usable image prompts ([imagePrompts] missing, falsy or of
    length zero) the image service is not contacted at all: the article
    request is the only request of the call, and [generatedImage] is what
    the payload held. *)
Theorem generateRewikiArticle_no_prompt
    `{Platform} topic lang env c text m log :
  text_reply env = Return (Some (c :: text)) →
  JSON_parse (cleanJson (c :: text)) = Some (JObj m) →
  image_prompt (JObj m) = None →
  ∃ m',
    generateRewikiArticle topic lang env log
    = (Return (JObj m'), log ++ [ArticleRequest topic lang])
    ∧ m' !! js "generatedImage" = m !! js "generatedImage".
Proof.
  intros Hreply Hparse Hprompt.
  destruct (generateRewikiArticle_object_spec topic lang env c text m log
              Hreply Hparse) as (m' & Hrun & _ & Himage & _).
  rewrite Hprompt in Hrun, Himage. by exists m'.
Qed.

Lemma generateRewikiArticle_no_prompt_witness :
  ∃ m',
    generateRewikiArticle (H := sample_platform) (js "Rome") en
      (sample_env rome_text 1700000000000) []
    = (Return (JObj m'), [] ++ [ArticleRequest (js "Rome") en])
    ∧ m' !! js "generatedImage" = None.
Proof.
  apply (generateRewikiArticle_no_prompt (H := sample_platform) (js "Rome") en
           (sample_env rome_text 1700000000000) 123%N (tail rome_text)
           rome_props []); reflexivity.
Defined.

(** The assembly fails at once on [null] and on a primitive value, and
    returns on an array as it does on an object. *)
Lemma assemble_primitive `{Platform} lang env d log :
  (∀ m, d ≠ JObj m) → (∀ l m, d ≠ JArr l m) →
  assemble lang env d log = (Throw TypeError, log).
Proof.
  intros Hobj Harr. destruct d as [| | | |l m|m]; try done.
  - by destruct (Harr l m).
  - by destruct (Hobj m).
Qed.

Lemma assemble_array_returns `{Platform} lang env l m log :
  ∃ d log', assemble lang env (JArr l m) log = (Return d, log').
Proof.
  unfold assemble, mbind, run_bind.
  destruct (stamp_array lang env l m log) as (m1 & -> & _).
  destruct (attach_image_returns env (JArr l m1) log) as (d & log' & -> & _).
  eauto.
Qed.

(** X11.  The ways in which [generateRewikiArticle] fails.  Whenever it
    throws, it has made the article request and no other; and what it
    throws is the rejection of that request, handed on as it is, or the
    error "No content generated" for a reply without text, or the error
    "Invalid JSON response from AI" for a text that does not parse, or a
    [TypeError] for a text that parses to [null] or to a primitive value. *)
Theorem generateRewikiArticle_throws `{Platform} topic lang env e log log' :
  generateRewikiArticle topic lang env log = (Throw e, log') →
  log' = log ++ [ArticleRequest topic lang]
  ∧ (text_reply env = Throw e
     ∨ (e = Error (js "No content generated")
        ∧ ∃ txt, text_reply env = Return txt ∧ nonempty (default [] txt) = false)
     ∨ (e = Error (js "Invalid JSON response from AI")
        ∧ ∃ c s, text_reply env = Return (Some (c :: s))
                 ∧ JSON_parse (cleanJson (c :: s)) = None)
     ∨ (e = TypeError
        ∧ ∃ c s d, text_reply env = Return (Some (c :: s))
                   ∧ JSON_parse (cleanJson (c :: s)) = Some d
                   ∧ (∀ m, d ≠ JObj m) ∧ (∀ l m, d ≠ JArr l m))).
Proof.
  destruct (text_reply env) as [[[|c s]|]|e0] eqn:Hreply.
  - rewrite (generateRewikiArticle_no_text _ _ _ _ _ Hreply) by done.
    intros [= <- <-]. split; [done|]. right; left. split; [done|]. by eexists.
  - rewrite (generateRewikiArticle_text _ _ _ _ _ _ Hreply).
    destruct (JSON_parse (cleanJson (c :: s))) as [d|] eqn:Hparse.
    + destruct d as [| | | |l m|m].
      1-4: rewrite assemble_primitive by done; intros [= <- <-];
           (split; [done|]); do 3 right; split; [done|];
           eexists c, s, _; by split_and!.
      * destruct (assemble_array_returns lang env l m
                    (log ++ [ArticleRequest topic lang])) as (d & l' & ->).
        done.
      * destruct (assemble_object lang env m
                    (log ++ [ArticleRequest topic lang])) as (m' & l' & -> & _).
        done.
    + intros [= <- <-]. split; [done|]. right; right; left.
      split; [done|]. by exists c, s.
  - rewrite (generateRewikiArticle_no_text _ _ _ _ _ Hreply) by done.
    intros [= <- <-]. split; [done|]. right; left. split; [done|]. by eexists.
  - rewrite (generateRewikiArticle_rejected _ _ _ _ _ Hreply).
    intros [= <- <-]. split; [done|]. by left.
Qed.

Lemma generateRewikiArticle_throws_witness :
  [ArticleRequest (js "Rome") en] = [] ++ [ArticleRequest (js "Rome") en]
  ∧ (Return (Some (js "null")) = Throw TypeError
     ∨ (TypeError = Error (js "No content generated")
        ∧ ∃ txt, Return (Some (js "null")) = Return txt
                 ∧ nonempty (default [] txt) = false)
     ∨ (TypeError = Error (js "Invalid JSON response from AI")
        ∧ ∃ c s, Return (Some (js "null")) = Return (Some (c :: s))
                 ∧ JSON_parse (Platform := paris_platform) (cleanJson (c :: s))
                   = None)
     ∨ (TypeError = TypeError
        ∧ ∃ c s d, Return (Some (js "null")) = Return (Some (c :: s))
                   ∧ JSON_parse (Platform := paris_platform) (cleanJson (c :: s))
                     = Some d
                   ∧ (∀ m, d ≠ JObj m) ∧ (∀ l m, d ≠ JArr l m))).
Proof.
  apply (generateRewikiArticle_throws (H := paris_platform) (js "Rome") en
           (sample_env (js "null") 1700000000000) TypeError []
           [ArticleRequest (js "Rome") en]).
  vm_compute. reflexivity.
Defined.

(** ** More on the application of a revision *)

Section RevisionMore.

Implicit Types (article updated : RewikiArticle.t) (sel : Selection)
               (selection : option Selection) (editType : EditType)
               (r : RevisionResult.t) (s : ArticleSection.t).

Lemma submitRevision_Approved_inv
    article selection editType reason verdict now message update :
  submitRevision article selection editType reason verdict now
  = Approved message update →
  nonempty (trim reason) = true
  ∧ ∃ r, verdict = Return r
         ∧ RevisionResult.accepted r = true
         ∧ message = approval_message r
         ∧ update = apply_revision article selection editType r now.
Proof.
  unfold submitRevision.
  destruct (nonempty (trim reason)); [|done].
  destruct verdict as [r|e]; [|done].
  destruct (RevisionResult.accepted r) eqn:Hacc; [|done].
  intros [= <- <-]. split; [done|]. by exists r.
Qed.

(** X12.  An update of the article is computed only for a request that is
    not blank and a verdict that says [accepted]: a blank request is not
    submitted, a failed analysis and a refusal publish nothing, and the
    [newContent] of a refusal is never looked at. *)
Theorem submitRevision_approved_only
    article selection editType reason verdict now message update :
  submitRevision article selection editType reason verdict now
  = Approved message update →
  nonempty (trim reason) = true
  ∧ ∃ r, verdict = Return r
         ∧ RevisionResult.accepted r = true
         ∧ message = approval_message r
         ∧ update = apply_revision article selection editType r now.
Proof.
  intros Hrun.
  destruct (submitRevision_Approved_inv _ _ _ _ _ _ _ _ Hrun)
    as (Hreason & r & Hverdict & Hacc & Hmsg & Hupdate).
  split; [exact Hreason|]. exists r. by split_and!.
Qed.

Lemma submitRevision_approved_only_witness :
  nonempty (trim (js "say Roma")) = true
  ∧ ∃ r, Return (accepted_with (Some (js "Roma."))) = Return r
         ∧ RevisionResult.accepted r = true
         ∧ js "The change is accurate." = approval_message r
         ∧ apply_revision sample_article None fix_
             (accepted_with (Some (js "Roma."))) 1700000050000
           = apply_revision sample_article None fix_ r 1700000050000.
Proof.
  apply (submitRevision_approved_only sample_article None fix_ (js "say Roma")
           (Return (accepted_with (Some (js "Roma.")))) 1700000050000
           (js "The change is accurate.")
           (apply_revision sample_article None fix_
              (accepted_with (Some (js "Roma."))) 1700000050000)).
  reflexivity.
Defined.

(** X13.  A published update differs from the article it was made from in
    [sections] and [changeLog] only: identifier, topic, summary, images,
    date, quiz, related topics and language are the ones of the article.
    The change log is the old one followed by [" | "] and the note of the
    edit kind. *)
Theorem submitRevision_frame
    article selection editType reason verdict now message updated :
  submitRevision article selection editType reason verdict now
  = Approved message (Return updated) →
  RewikiArticle.id updated = RewikiArticle.id article
  ∧ RewikiArticle.topic updated = RewikiArticle.topic article
  ∧ RewikiArticle.summary updated = RewikiArticle.summary article
  ∧ RewikiArticle.imagePrompts updated = RewikiArticle.imagePrompts article
  ∧ RewikiArticle.generatedImage updated = RewikiArticle.generatedImage article
  ∧ RewikiArticle.realImageUrl updated = RewikiArticle.realImageUrl article
  ∧ RewikiArticle.secondaryImageUrl updated
    = RewikiArticle.secondaryImageUrl article
  ∧ RewikiArticle.originalSnippet updated = RewikiArticle.originalSnippet article
  ∧ RewikiArticle.lastUpdated updated = RewikiArticle.lastUpdated article
  ∧ RewikiArticle.didYouKnow updated = RewikiArticle.didYouKnow article
  ∧ RewikiArticle.homeworkHelp updated = RewikiArticle.homeworkHelp article
  ∧ RewikiArticle.quiz updated = RewikiArticle.quiz article
  ∧ RewikiArticle.relatedTopics updated = RewikiArticle.relatedTopics article
  ∧ RewikiArticle.language updated = RewikiArticle.language article
  ∧ RewikiArticle.changeLog updated
    = RewikiArticle.changeLog article ++ js " | " ++ edit_note editType.
Proof.
  intros (_ & r & _ & _ & _ & Hupdate)%submitRevision_Approved_inv.
  unfold apply_revision in Hupdate.
  destruct (revised_sections article selection editType r now); [|done].
  injection Hupdate as ->. by split_and!.
Qed.

Lemma submitRevision_frame_witness :
  RewikiArticle.id sample_added = js "1700000000000"
  ∧ RewikiArticle.language sample_added = en
  ∧ RewikiArticle.changeLog sample_added = js "Shortened | Added section".
Proof.
  destruct (submitRevision_frame sample_article None add
              (js "add the climate")
              (Return (accepted_with (Some (js "Rome has a Mediterranean climate."))))
              1700000050000 (js "The change is accurate.") sample_added
              eq_refl)
    as (Hid & _ & _ & _ & _ & _ & _ & _ & _ & _ & _ & _ & _ & Hlang & Hlog).
  split_and!.
  - rewrite Hid. reflexivity.
  - rewrite Hlang. reflexivity.
  - rewrite Hlog. reflexivity.
Defined.

Lemma fix_section_keeps selection r s :
  ArticleSection.id (fix_section selection r s) = ArticleSection.id s
  ∧ ArticleSection.heading (fix_section selection r s) = ArticleSection.heading s.
Proof.
  unfold fix_section. destruct selection as [sel|]; [|done].
  by destruct (includes _ _).
Qed.

(** X14.  A revision never removes or reorders sections and never changes
    the identifier or the heading of an existing section: the published
    article has every section of the article at its place, with its
    identifier and heading, and at most one section more. *)
Theorem submitRevision_keeps_sections
    article selection editType reason verdict now message updated :
  submitRevision article selection editType reason verdict now
  = Approved message (Return updated) →
  (length (RewikiArticle.sections article)
   ≤ length (RewikiArticle.sections updated))%nat
  ∧ (length (RewikiArticle.sections updated)
     ≤ S (length (RewikiArticle.sections article)))%nat
  ∧ ∀ i s, RewikiArticle.sections article !! i = Some s →
      ∃ s', RewikiArticle.sections updated !! i = Some s'
            ∧ ArticleSection.id s' = ArticleSection.id s
            ∧ ArticleSection.heading s' = ArticleSection.heading s.
Proof.
  intros (_ & r & _ & _ & _ & Hupdate)%submitRevision_Approved_inv.
  unfold apply_revision in Hupdate.
  destruct (revised_sections article selection editType r now)
    as [newSections|] eqn:Hrev; [|done].
  injection Hupdate as ->.
  cbn [RewikiArticle.sections RewikiArticle.with_sections_changeLog].
  assert (∀ i s, RewikiArticle.sections article !! i = Some s →
            ∃ s', map (fix_section selection r) (RewikiArticle.sections article)
                    !! i = Some s'
                  ∧ ArticleSection.id s' = ArticleSection.id s
                  ∧ ArticleSection.heading s' = ArticleSection.heading s)
    as Hmap.
  { intros i s Hi. exists (fix_section selection r s). split.
    - change (map ?f ?l) with (f <$> l). by rewrite list_lookup_fmap, Hi.
    - apply fix_section_keeps. }
  unfold revised_sections in Hrev.
  set (mapped := map (fix_section selection r) (RewikiArticle.sections article))
    in *.
  assert (length mapped = length (RewikiArticle.sections article)) as Hlen
    by apply length_map.
  assert ((editType = add ∧ ∃ c, newSections
             = RewikiArticle.sections article
               ++ [ArticleSection.mk (toString now) (js "New Section") c])
          ∨ newSections = mapped
          ∨ ∃ c s0 rest, mapped = s0 :: rest
              ∧ newSections = ArticleSection.with_content c s0 :: rest)
    as [[_ [c ->]] | [-> | (c & s0 & rest & Hm & ->)]].
  { destruct editType, (truthy_content r) as [c|], selection as [sel|];
      simplify_eq; eauto.
    destruct mapped as [|s0 rest]; simplify_eq. eauto 10. }
  - rewrite length_app. cbn [length]. split_and!; [lia | lia |].
    intros i s Hi. exists s. split; [|done]. by apply lookup_app_l_Some.
  - rewrite Hlen. split_and!; [lia | lia | exact Hmap].
  - rewrite Hm in Hlen, Hmap. cbn [length] in *. rewrite <- Hlen.
    split_and!; [lia | lia |].
    intros [|i] s Hi.
    + destruct (Hmap 0%nat s Hi) as (s' & [= <-] & Hid & Hhead).
      eexists. split; [reflexivity|]. done.
    + destruct (Hmap (S i) s Hi) as (s' & Hs' & Hid & Hhead). by exists s'.
Qed.

Lemma submitRevision_keeps_sections_witness :
  (2 ≤ length (RewikiArticle.sections sample_fixed))%nat
  ∧ (length (RewikiArticle.sections sample_fixed) ≤ 3)%nat
  ∧ ∃ s', RewikiArticle.sections sample_fixed !! 0%nat = Some s'
          ∧ ArticleSection.id s' = js "s1"
          ∧ ArticleSection.heading s' = js "History".
Proof.
  destruct (submitRevision_keeps_sections sample_article None fix_
              (js "say Roma") (Return (accepted_with (Some (js "Roma."))))
              1700000050000 (js "The change is accurate.") sample_fixed
              eq_refl)
    as (Hge & Hle & Hsec).
  split_and!; [exact Hge | exact Hle |].
  exact (Hsec 0%nat sec_history eq_refl).
Defined.

(** X15.  A "fix" whose excerpt occurs in no section still publishes an
    update: the sections are the ones the article had, and the change log
    gains the note "Fixed info" although nothing was fixed. *)
Theorem submitRevision_fix_no_match article sel reason r now :
  nonempty (trim reason) = true →
  RevisionResult.accepted r = true →
  Forall (λ s, includes (ArticleSection.content s) (text sel) = false)
         (RewikiArticle.sections article) →
  ∃ updated,
    submitRevision article (Some sel) fix_ reason (Return r) now
    = Approved (approval_message r) (Return updated)
    ∧ RewikiArticle.sections updated = RewikiArticle.sections article
    ∧ RewikiArticle.changeLog updated
      = RewikiArticle.changeLog article ++ js " | Fixed info".
Proof.
  intros Hreason Hacc Hmiss.
  rewrite submitRevision_accepted by done.
  unfold apply_revision. rewrite revised_sections_fix_selection.
  eexists. split; [reflexivity|].
  cbn [RewikiArticle.sections RewikiArticle.changeLog
       RewikiArticle.with_sections_changeLog].
  split; [by apply map_fix_section_miss | done].
Qed.

Lemma submitRevision_fix_no_match_witness :
  ∃ updated,
    submitRevision sample_article (Some {| text := js "Carthage" |}) fix_
      (js "wrong city") (Return (accepted_with (Some (js "Roma.")))) 1700000050000
    = Approved (approval_message (accepted_with (Some (js "Roma."))))
               (Return updated)
    ∧ RewikiArticle.sections updated = RewikiArticle.sections sample_article
    ∧ RewikiArticle.changeLog updated
      = RewikiArticle.changeLog sample_article ++ js " | Fixed info".
Proof.
  apply (submitRevision_fix_no_match sample_article {| text := js "Carthage" |}
           (js "wrong city") (accepted_with (Some (js "Roma.")))
           1700000050000).
  - reflexivity.
  - reflexivity.
  - apply Forall_cons_2; [vm_compute; reflexivity|].
    apply Forall_cons_2; [vm_compute; reflexivity|]. apply Forall_nil_2.
Defined.

(** [includes] is the test for a contiguous occurrence. *)
Lemma includes_part_of (t e : jsstring) : includes t e = true ↔ part_of e t.
Proof.
  induction t as [|c t IH]; cbn [includes].
  - destruct (strip_prefix e []) as [r|] eqn:E.
    + split; [|done]. intros _. apply strip_prefix_Some in E.
      exists [], r. exact E.
    + split; [done|]. intros (pre & post & Heq). symmetry in Heq.
      apply app_eq_nil in Heq as [_ Heq]. apply app_eq_nil in Heq as [-> _].
      done.
  - destruct (strip_prefix e (c :: t)) as [r|] eqn:E.
    + split; [|done]. intros _. apply strip_prefix_Some in E.
      exists [], r. exact E.
    + rewrite IH. split.
      * intros (pre & post & ->). by exists (c :: pre), post.
      * intros ([|a pre] & post & Heq).
        -- simpl in Heq. rewrite Heq, strip_prefix_app in E. done.
        -- injection Heq as -> ->. by exists pre, post.
Qed.

(** X16.  Which sections a "fix" with a selection rewrites: a section gets
    the replacement text exactly when the excerpt occurs in its body as one
    contiguous run of code units (a section with body
    [before ++ excerpt ++ after]); every other section is published as it
    was. *)
Theorem submitRevision_fix_by_occurrence article sel reason r R now :
  nonempty (trim reason) = true →
  RevisionResult.accepted r = true →
  RevisionResult.newContent r = Some R → nonempty R = true →
  ∃ updated,
    submitRevision article (Some sel) fix_ reason (Return r) now
    = Approved (approval_message r) (Return updated)
    ∧ ∀ i s, RewikiArticle.sections article !! i = Some s →
        ((∃ before after,
            ArticleSection.content s = before ++ text sel ++ after) →
         RewikiArticle.sections updated !! i
         = Some (ArticleSection.with_content R s))
        ∧ ((∀ before after,
              ArticleSection.content s ≠ before ++ text sel ++ after) →
           RewikiArticle.sections updated !! i = Some s).
Proof.
  intros Hreason Hacc Hnew HR.
  pose proof (truthy_content_Some _ _ Hnew HR) as Hc.
  rewrite submitRevision_accepted by done.
  unfold apply_revision. rewrite revised_sections_fix_selection.
  eexists. split; [reflexivity|].
  cbn [RewikiArticle.sections RewikiArticle.with_sections_changeLog].
  intros i s Hi. change (map ?f ?l) with (f <$> l).
  rewrite list_lookup_fmap, Hi. cbn [fmap option_fmap option_map]. split.
  - intros Hocc. f_equal. apply (fix_section_hit _ _ _ _ Hc).
    by apply includes_part_of.
  - intros Hnone. f_equal. apply fix_section_miss.
    destruct (includes _ _) eqn:Hin; [|done].
    apply includes_part_of in Hin as (before & after & Heq).
    by destruct (Hnone before after).
Qed.

Lemma submitRevision_fix_by_occurrence_witness :
  ∃ updated,
    submitRevision sample_article (Some {| text := js "753 BC" |}) fix_
      (js "tradition") (Return (accepted_with (Some (js "Roma.")))) 1700000050000
    = Approved (approval_message (accepted_with (Some (js "Roma."))))
               (Return updated)
    ∧ RewikiArticle.sections updated !! 0%nat
      = Some (ArticleSection.with_content (js "Roma.") sec_history).
Proof.
  destruct (submitRevision_fix_by_occurrence sample_article
              {| text := js "753 BC" |} (js "tradition")
              (accepted_with (Some (js "Roma."))) (js "Roma.") 1700000050000
              eq_refl eq_refl eq_refl eq_refl)
    as (updated & Hrun & Hsec).
  exists updated. split; [exact Hrun|].
  apply (Hsec 0%nat sec_history eq_refl).
  exists (js "Rome was founded in "), (js "."). reflexivity.
Defined.

(** X17.  The selection the view holds always has more than five code
    units: starting without a selection, after any sequence of [mouseup]
    events the held selection, if there is one, is longer than five, so the
    excerpt of a "fix" is never the empty string (which every section would
    contain). *)
Theorem handleSelection_long events :
  ∀ sel, foldl (λ held ev, handleSelection ev held) None events = Some sel →
         (5 < length (text sel))%nat ∧ nonempty (text sel) = true.
Proof.
  assert (∀ held,
            (∀ sel, held = Some sel → (5 < length (text sel))%nat) →
            ∀ sel, foldl (λ held ev, handleSelection ev held) held events
                   = Some sel → (5 < length (text sel))%nat) as Hinv.
  { induction events as [|ev events IH]; intros held Hheld; [exact Hheld|].
    cbn [foldl]. apply IH. intros sel. unfold handleSelection.
    destruct ev as [a|]; [|done].
    destruct (negb (isCollapsed a)); [|done].
    destruct (5 <? length (selected_text a))%nat eqn:Hlen; [|done].
    destruct (0 <? rangeCount a)%nat; [|done]. cbn [andb].
    destruct (inside_article a); [|apply Hheld].
    intros [= <-]. cbn [text]. by apply Nat.ltb_lt. }
  intros sel Hsel. assert (5 < length (text sel))%nat as Hlen.
  { by apply (Hinv None). }
  split; [done|]. destruct (text sel); [simpl in Hlen; lia | done].
Qed.

Lemma handleSelection_long_witness :
  (5 < length (js "753 BC"))%nat ∧ nonempty (js "753 BC") = true.
Proof.
  apply (handleSelection_long
           [Some {| isCollapsed := false; selected_text := js "753 BC";
                    rangeCount := 1; inside_article := true |};
            Some {| isCollapsed := false; selected_text := js "Sign In now";
                    rangeCount := 1; inside_article := false |}]
           {| text := js "753 BC" |}).
  reflexivity.
Defined.

End RevisionMore.

(** ** The quiz *)

Section Quiz.

Implicit Types (quizState : gmap nat nat) (question : QuizQuestion.t)
               (clicks : list (nat * nat)).

Lemma click_option_answered quizState click q o :
  quizState !! q = Some o → click_option quizState click !! q = Some o.
Proof.
  intros Hq. unfold click_option, showResult, handleQuizOption.
  case_bool_decide as Hshown; [done|].
  destruct (decide (click.1 = q)) as [Heq | Hne].
  - destruct Hshown. rewrite Heq. by exists o.
  - by rewrite lookup_insert_ne.
Qed.

Lemma clicks_answered clicks quizState q o :
  quizState !! q = Some o → foldl click_option quizState clicks !! q = Some o.
Proof.
  revert quizState. induction clicks as [|click clicks IH]; intros qs Hq; [done|].
  cbn [foldl]. by apply IH, click_option_answered.
Qed.

(** X18.  The first answer given to a question is the one that stays: after
    a click on option [o] of question [q], whatever is clicked afterwards,
    the recorded answer of [q] is the one it had before the click, if it had
    one, and [o] otherwise.  (The buttons of an answered question are
    disabled.) *)
Theorem click_option_first_answer_stays quizState q o clicks :
  foldl click_option quizState ((q, o) :: clicks) !! q
  = Some (default o (quizState !! q)).
Proof.
  cbn [foldl]. apply clicks_answered.
  destruct (quizState !! q) as [o'|] eqn:Hq.
  - by apply click_option_answered.
  - unfold click_option, showResult, handleQuizOption. cbn [fst snd].
    rewrite Hq. case_bool_decide as Hshown.
    + by destruct Hshown as [? [=]].
    + apply lookup_insert_eq.
Qed.

Lemma class_correct_neq :
  class_correct ≠ class_wrong ∧ class_correct ≠ class_dimmed
  ∧ class_correct ≠ class_neutral ∧ class_wrong ≠ class_dimmed
  ∧ class_wrong ≠ class_neutral.
Proof. split_and!; js_neq. Qed.

(** X19.  The colours of an answered question.  Once question [q] has the
    answer [chosen], the button of option [o] has the "correct" class
    exactly when [o] is the [correctAnswer] of the question, whether it was
    chosen or not, and the "wrong" class exactly when it was chosen and is
    not the [correctAnswer].  Hence a [correctAnswer] that is not the index
    of an option leaves the question without any option marked correct. *)
Theorem btnClass_answered quizState question q o chosen :
  quizState !! q = Some chosen →
  (btnClass quizState question q o = class_correct
   ↔ Z.of_nat o = QuizQuestion.correctAnswer question)
  ∧ (btnClass quizState question q o = class_wrong
     ↔ o = chosen ∧ Z.of_nat o ≠ QuizQuestion.correctAnswer question)
  ∧ ((QuizQuestion.correctAnswer question < 0
      ∨ Z.of_nat (length (QuizQuestion.options question))
        ≤ QuizQuestion.correctAnswer question) →
     (o < length (QuizQuestion.options question))%nat →
     btnClass quizState question q o ≠ class_correct).
Proof.
  intros Hq.
  destruct class_correct_neq as (Hcw & Hcd & Hcn & Hwd & Hwn).
  assert (btnClass quizState question q o = class_correct
          ↔ Z.of_nat o = QuizQuestion.correctAnswer question) as Hcorrect.
  { unfold btnClass, showResult. rewrite Hq.
    rewrite bool_decide_eq_true_2 by eauto.
    destruct (Z.eqb_spec (Z.of_nat o) (QuizQuestion.correctAnswer question));
      [done|].
    case_bool_decide; split; intros; simplify_eq; congruence. }
  split_and!; [exact Hcorrect | |].
  - unfold btnClass, showResult. rewrite Hq.
    rewrite bool_decide_eq_true_2 by eauto.
    destruct (Z.eqb_spec (Z.of_nat o) (QuizQuestion.correctAnswer question)).
    + split; [congruence | by intros [_ ?]].
    + case_bool_decide as Hsel; split.
      * intros _. by simplify_eq.
      * done.
      * intros ?. congruence.
      * intros [-> _]. done.
  - intros Hrange Ho. rewrite Hcorrect. lia.
Qed.

Lemma btnClass_answered_witness :
  let question := QuizQuestion.mk (js "Who founded Rome?")
                    [js "Romulus"; js "Caesar"; js "Nero"] 3 in
  btnClass {[0%nat := 1%nat]} question 0 1 = class_wrong
  ∧ btnClass {[0%nat := 1%nat]} question 0 0 ≠ class_correct.
Proof.
  cbv zeta.
  assert (({[0%nat := 1%nat]} : gmap nat nat) !! 0%nat = Some 1%nat) as Hq
    by apply lookup_singleton_eq.
  destruct (btnClass_answered {[0%nat := 1%nat]}
              (QuizQuestion.mk (js "Who founded Rome?")
                 [js "Romulus"; js "Caesar"; js "Nero"] 3) 0 1 1 Hq)
    as (_ & Hwrong & _).
  destruct (btnClass_answered {[0%nat := 1%nat]}
              (QuizQuestion.mk (js "Who founded Rome?")
                 [js "Romulus"; js "Caesar"; js "Nero"] 3) 0 0 1 Hq)
    as (_ & _ & Hnone).
  split.
  - apply Hwrong. split; [reflexivity | discriminate].
  - apply Hnone; [right; cbn; lia | cbn; lia].
Defined.

End Quiz.

(** ** The secondary image *)

Lemma filter_none {A} (f : A → bool) (l : list A) :
  (∀ x, In x l → f x = false) → List.filter f l = [].
Proof.
  induction l as [|x l IH]; intros Hall; [done|]. cbn [List.filter].
  rewrite (Hall x) by by left. apply IH. intros y Hy. apply Hall. by right.
Qed.

(** X20.  The secondary image is rendered at most once in an article: after
    the second section when there are two sections or more, after the only
    section when there is one, and nowhere when the article has no section,
    no secondary image, or the image failed to load. *)
Theorem secondary_slots_once article secImgError :
  secondary_slots article secImgError
  = if nonempty (default [] (RewikiArticle.secondaryImageUrl article))
       && negb secImgError
    then match length (RewikiArticle.sections article) with
         | 0%nat => []
         | 1%nat => [0%nat]
         | _ => [1%nat]
         end
    else [].
Proof.
  unfold secondary_slots, shows_secondary.
  set (n := length (RewikiArticle.sections article)).
  set (ok := nonempty (default [] (RewikiArticle.secondaryImageUrl article))).
  destruct n as [|[|k]]; [by destruct (ok && negb secImgError) | |].
  - cbn. by destruct ok, secImgError.
  - cbn [seq List.filter Nat.eqb Nat.leb Nat.ltb andb orb].
    rewrite filter_none.
    + by destruct ok, secImgError.
    + intros idx [Hlo _]%in_seq.
      destruct idx as [|[|idx]]; [lia | lia | done].
Qed.

(** ** The client handle *)

(** X21.  The client is built once.  The first call of [getAiClient] reads
    the key (the empty string when [process], [process.env] or the variable
    is missing, or when the access raises); every later call returns that
    same client, whatever the environment has become. *)
Theorem getAiClient_once p1 p2 aiClient :
  getAiClient p2 (getAiClient p1 aiClient).2 = getAiClient p1 aiClient
  ∧ (aiClient = None →
     apiKey (getAiClient p1 aiClient).1
     = match p1 with Env (Some key) => key | _ => [] end).
Proof.
  split.
  - by destruct aiClient.
  - by intros ->.
Qed.

Lemma getAiClient_once_witness :
  apiKey (getAiClient (Env (Some (js "second-key")))
            (getAiClient (Env (Some (js "first-key"))) None).2).1
  = js "first-key".
Proof.
  destruct (getAiClient_once (Env (Some (js "first-key")))
              (Env (Some (js "second-key"))) None) as [Hsame Hkey].
  rewrite Hsame. apply Hkey. reflexivity.
Defined.

(** ** More on the history *)

Section HistoryMore.

Context `{Platform}.

Implicit Types (a b : RewikiArticle.t) (l : list RewikiArticle.t)
               (st : AppState) (t : jsstring).

Local Abbreviation topic := RewikiArticle.topic.

Lemma Forall_filter_topic t l :
  Forall (λ b, topic b ≠ t) (filter (λ b, topic b ≠ t) l).
Proof. apply Forall_forall. by intros b [? _]%list_elem_of_filter. Qed.

Lemma filter_other_topic t l :
  t ∉ topic <$> l → filter (λ b, topic b ≠ t) l = l.
Proof.
  intros Ht. apply filter_all, Forall_forall. intros b Hb Heq. apply Ht.
  rewrite <- Heq. apply list_elem_of_fmap. eauto.
Qed.

(** X22.  Recording the same article twice in a row is the same as
    recording it once: the history and the storage are as after the first
    insertion. *)
Theorem addToHistory_idempotent a st :
  addToHistory a (addToHistory a st) = addToHistory a st.
Proof.
  unfold addToHistory. cbn [history localStorage take].
  set (F := filter (λ b, topic b ≠ topic a) (history st)).
  assert (filter (λ b, topic b ≠ topic a) (a :: take 9 F) = take 9 F) as ->.
  { rewrite filter_cons_False by (intros Hne; by apply Hne).
    apply filter_all, Forall_take, Forall_filter_topic. }
  rewrite take_take, insert_insert_eq. done.
Qed.

(** X23.  An article on a topic that is not in the history goes to the
    front and the first nine entries follow it: a history of ten entries
    loses its last, oldest, entry. *)
Theorem addToHistory_new_topic a st :
  topic a ∉ topic <$> history st →
  history (addToHistory a st) = a :: take 9 (history st)
  ∧ (length (history (addToHistory a st))
     = S (min 9 (length (history st))))%nat.
Proof.
  intros Hnew. unfold addToHistory. cbn [history take].
  rewrite filter_other_topic by done. split; [done|].
  cbn [length]. by rewrite length_take.
Qed.

Lemma length_filter_topic t l :
  NoDup (topic <$> l) → t ∈ topic <$> l →
  S (length (filter (λ b, topic b ≠ t) l)) = length l.
Proof.
  induction l as [|x l IH]; [by intros _ ?%elem_of_nil|].
  rewrite fmap_cons. intros [Hx Hnd]%NoDup_cons Ht.
  rewrite filter_cons. destruct (decide (topic x ≠ t)) as [Hne | Heq].
  - apply elem_of_cons in Ht as [? | Ht]; [congruence|].
    cbn [length]. by rewrite IH.
  - apply dec_stable in Heq. subst t.
    by rewrite filter_other_topic.
Qed.

(** X24.  Recording an article on a topic that is already in the history
    evicts nothing: the article comes first, its older entry is dropped,
    every other entry stays, so the history has the length and the topics
    it had. *)
Theorem addToHistory_known_topic a st :
  NoDup (topic <$> history st) → (length (history st) ≤ 10)%nat →
  topic a ∈ topic <$> history st →
  history (addToHistory a st)
  = a :: filter (λ b, topic b ≠ topic a) (history st)
  ∧ length (history (addToHistory a st)) = length (history st)
  ∧ ∀ t, t ∈ topic <$> history (addToHistory a st)
         ↔ t ∈ topic <$> history st.
Proof.
  intros Hnd Hlen Hin.
  pose proof (length_filter_topic _ _ Hnd Hin) as Hfilter.
  assert (history (addToHistory a st)
          = a :: filter (λ b, topic b ≠ topic a) (history st)) as ->.
  { unfold addToHistory. cbn [history]. apply take_ge. cbn [length]. lia. }
  split_and!; [done | cbn [length]; lia |].
  intros t. rewrite fmap_cons, elem_of_cons, !list_elem_of_fmap. split.
  - intros [-> | (b & -> & [_ Hb]%list_elem_of_filter)]; [|eauto].
    by apply list_elem_of_fmap.
  - intros (b & -> & Hb).
    destruct (decide (topic b = topic a)) as [? | Hne]; [by left|].
    right. exists b. split; [done|]. by apply list_elem_of_filter.
Qed.

End HistoryMore.

Lemma addToHistory_new_topic_witness :
  history (addToHistory (H := sample_platform) (article_on (js "L") 13)
             (insert_all (H := sample_platform) twelve_insertions (initial ∅)))
  = article_on (js "L") 13
    :: take 9 (history (insert_all (H := sample_platform) twelve_insertions
                          (initial ∅)))
  ∧ (length (history (addToHistory (H := sample_platform)
               (article_on (js "L") 13)
               (insert_all (H := sample_platform) twelve_insertions (initial ∅))))
     = S (min 9 (length (history (insert_all (H := sample_platform)
                                    twelve_insertions (initial ∅))))))%nat.
Proof.
  apply (addToHistory_new_topic (H := sample_platform) (article_on (js "L") 13)
           (insert_all (H := sample_platform) twelve_insertions (initial ∅))).
  apply (bool_decide_unpack _). vm_compute. exact I.
Defined.

Lemma addToHistory_known_topic_witness :
  let st := insert_all (H := sample_platform) twelve_insertions (initial ∅) in
  length (history (addToHistory (H := sample_platform)
                     (article_on (js "C") 13) st))
  = length (history st).
Proof.
  cbv zeta.
  apply (addToHistory_known_topic (H := sample_platform) (article_on (js "C") 13)
           (insert_all (H := sample_platform) twelve_insertions (initial ∅))).
  - apply (bool_decide_unpack _). vm_compute. exact I.
  - vm_compute. lia.
  - apply (bool_decide_unpack _). vm_compute. exact I.
Defined.


(** ** The application shell *)

Section AppShell.

Context `{Platform} `{HistoryParser}.

Implicit Types (app : App.t) (storage : gmap jsstring jsstring)
               (events : list Event) (e : Event).

Lemma trim_all_ws (s : jsstring) : all_ws s = true → trim s = [].
Proof.
  intros Hs. unfold trim.
  assert (skip_ws s = []) as ->; [|done].
  rewrite <- (app_nil_r s). by rewrite skip_ws_all_ws.
Qed.

(** X25.  How a search settles.  With a query that is not blank, a failure
    of the generator, whatever it is, shows the one fixed message in the
    error view and leaves the current article, the history and the storage
    as they were; a success shows the article, puts it at the head of the
    history and leaves no error.  A query of white space only does
    nothing. *)
Theorem handleSearch_settles topicOverride generated app :
  (all_ws (search_query topicOverride app) = true →
   handleSearch topicOverride generated app = app)
  ∧ (nonempty (trim (search_query topicOverride app)) = true →
     let app' := handleSearch topicOverride generated app in
     match generated with
     | Throw _ =>
         App.viewState app' = ERROR
         ∧ App.error app' = Some search_failed_message
         ∧ App.currentArticle app' = App.currentArticle app
         ∧ App.store app' = App.store app
     | Return article =>
         App.viewState app' = ARTICLE
         ∧ App.error app' = None
         ∧ App.currentArticle app' = Some article
         ∧ head (history (App.store app')) = Some article
     end).
Proof.
  unfold handleSearch, search_begin. split.
  - intros Hblank. by rewrite (trim_all_ws _ Hblank).
  - intros ->. by destruct generated.
Qed.

Lemma known_language_inv (tag : jsstring) :
  known_language tag = true → tag = js "en" ∨ tag = js "es".
Proof.
  unfold known_language. intros [Hen | Hes]%orb_true_iff.
  - left. by apply bool_decide_eq_true in Hen.
  - right. by apply bool_decide_eq_true in Hes.
Qed.

Lemma other_language_known (tag : jsstring) :
  known_language tag = true →
  known_language (other_language tag) = true
  ∧ other_language tag ≠ tag
  ∧ other_language (other_language tag) = tag.
Proof. intros [-> | ->]%known_language_inv; by vm_compute. Qed.

(** The theme and the language stored are those of the state, and the
    language is one of the two. *)
Lemma start_synced storage app :
  start storage = Some app →
  storage_of app !! lang_key = Some (App.language app)
  ∧ known_language (App.language app) = true
  ∧ storage_of app !! theme_key = Some (theme_tag (App.darkMode app)).
Proof.
  unfold start, storage_of.
  destruct (known_language (initial_language storage)) eqn:Hknown; [|done].
  destruct (loaded_history storage) as [loaded|]; [|done].
  intros [= <-]. cbn [App.store App.language App.darkMode localStorage].
  split_and!.
  - apply lookup_insert_eq.
  - done.
  - rewrite lookup_insert_ne by js_neq. apply lookup_insert_eq.
Qed.

Lemma step_synced app e :
  storage_of app !! lang_key = Some (App.language app)
  ∧ known_language (App.language app) = true
  ∧ storage_of app !! theme_key = Some (theme_tag (App.darkMode app)) →
  storage_of (step app e) !! lang_key = Some (App.language (step app e))
  ∧ known_language (App.language (step app e)) = true
  ∧ storage_of (step app e) !! theme_key
    = Some (theme_tag (App.darkMode (step app e))).
Proof.
  unfold storage_of. intros (Hlang & Hknown & Htheme).
  destruct e as [topicOverride|[article|err]| | | | | |]; cbn [step];
    try done.
  - unfold search_begin. by destruct (nonempty (trim _)).
  - unfold search_end, addToHistory.
    cbn [App.store App.language App.darkMode localStorage history].
    by rewrite !lookup_insert_ne by js_neq.
  - unfold toggleLanguage, with_storage.
    cbn [App.store App.language App.darkMode localStorage history].
    split_and!.
    + apply lookup_insert_eq.
    + by apply other_language_known.
    + by rewrite lookup_insert_ne by js_neq.
  - unfold toggleDarkMode, with_storage.
    cbn [App.store App.language App.darkMode localStorage history].
    split_and!.
    + by rewrite lookup_insert_ne by js_neq.
    + done.
    + apply lookup_insert_eq.
Qed.

Lemma run_synced app events :
  storage_of app !! lang_key = Some (App.language app)
  ∧ known_language (App.language app) = true
  ∧ storage_of app !! theme_key = Some (theme_tag (App.darkMode app)) →
  storage_of (run app events) !! lang_key = Some (App.language (run app events))
  ∧ known_language (App.language (run app events)) = true
  ∧ storage_of (run app events) !! theme_key
    = Some (theme_tag (App.darkMode (run app events))).
Proof.
  intros Hsynced. unfold run.
  induction events as [|e events IH] using rev_ind; [done|].
  rewrite foldl_snoc. by apply step_synced.
Qed.

(** On a platform whose typed reading of the stored history gives nothing
    for a text that [JSON.parse] rejects, the state of a start is the one
    [mount] describes. *)
Lemma start_mount storage app :
  (∀ s, JSON_parse s = None → JSON_parse_history s = None) →
  start storage = Some app → app = mount storage.
Proof.
  intros Hcoherent. unfold start, mount, loaded_history.
  fold (initial_darkMode storage). fold (initial_language storage).
  destruct (known_language (initial_language storage)); [|done].
  destruct (storage !! history_key) as [[|c saved]|]; [by intros [= <-] | |
    by intros [= <-]].
  destruct (JSON_parse (c :: saved)) eqn:Hparse.
  - destruct (JSON_parse_history (c :: saved)); [|done]. by intros [= <-].
  - rewrite (Hcoherent _ Hparse). by intros [= <-].
Qed.



(** X29.  The history survives a reload, as far as the platform reads back
    what it wrote: after an insertion, a fresh start on the storage left
    behind has the history the application had, provided the serialisation
    of that history is not the empty string and parses back to it. *)
Theorem history_survives_reload article st :
  nonempty (JSON_stringify (history (addToHistory article st))) = true →
  JSON_parse_history (JSON_stringify (history (addToHistory article st)))
  = Some (history (addToHistory article st)) →
  history (App.store (mount (localStorage (addToHistory article st))))
  = history (addToHistory article st).
Proof.
  intros Hne Hparse. unfold mount. cbn [App.store history].
  assert (localStorage (addToHistory article st) !! history_key
          = Some (JSON_stringify (history (addToHistory article st)))) as Hlook
    by apply lookup_insert_eq.
  unfold jsstring in *. rewrite Hlook.
  destruct (JSON_stringify (history (addToHistory article st))) as [|c s];
    [done|].
  by rewrite Hparse.
Qed.

(** X30.  A stored history that cannot be read does not keep the
    application from starting.  With a stored language of the table, or
    none, and a history entry that is missing, empty, or a text on which
    [JSON.parse] raises, the application starts: it shows the home view,
    no article, and the empty history. *)
Theorem start_unreadable_history storage :
  known_language (initial_language storage) = true →
  match storage !! history_key with
  | Some (c :: saved) => JSON_parse (c :: saved) = None
  | _ => True
  end →
  ∃ app, start storage = Some app
         ∧ history (App.store app) = []
         ∧ App.viewState app = HOME
         ∧ App.currentArticle app = None.
Proof.
  intros Hknown Hstored. unfold start, loaded_history. rewrite Hknown.
  destruct (storage !! history_key) as [[|c saved]|];
    [by eexists | | by eexists].
  rewrite Hstored. by eexists.
Qed.

End AppShell.

Lemma handleSearch_settles_witness :
  let app := mount (H := sample_history_parser) ∅ in
  let app' := handleSearch (H := sample_platform) (Some (js "Rome"))
                (Throw (Error (js "Invalid JSON response from AI"))) app in
  App.viewState app' = ERROR
  ∧ App.error app' = Some search_failed_message
  ∧ App.currentArticle app' = App.currentArticle app
  ∧ App.store app' = App.store app.
Proof.
  cbv zeta.
  apply (handleSearch_settles (H := sample_platform) (Some (js "Rome"))
           (Throw (Error (js "Invalid JSON response from AI")))
           (mount (H := sample_history_parser) ∅)).
  reflexivity.
Defined.



Lemma history_survives_reload_witness :
  history (App.store
             (mount (H := sample_history_parser)
                (localStorage
                   (addToHistory (H := sample_platform) (article_on (js "K") 12)
                      (insert_all (H := sample_platform) twelve_insertions
                         (initial ∅))))))
  = sample_history.
Proof.
  rewrite (history_survives_reload (H := sample_platform)
             (H0 := sample_history_parser) (article_on (js "K") 12)
             (insert_all (H := sample_platform) twelve_insertions (initial ∅))).
  - vm_compute. reflexivity.
  - vm_compute. reflexivity.
  - vm_compute. reflexivity.
Defined.

Lemma start_unreadable_history_witness :
  ∃ app, start (H := sample_platform) (H0 := sample_history_parser)
           {[history_key := js "[{"]} = Some app
         ∧ history (App.store app) = []
         ∧ App.viewState app = HOME
         ∧ App.currentArticle app = None.
Proof.
  apply (start_unreadable_history (H := sample_platform)
           (H0 := sample_history_parser) {[history_key := js "[{"]}).
  - vm_compute. reflexivity.
  - vm_compute. reflexivity.
Defined.

(** ** Articles in memory *)

Section ArticleMemory.

Implicit Types (h : Heap) (refs : list nat) (a e : ArticleObj) (m : Memory).

Lemma read_sections_cons h addr refs s :
  h !! addr = Some s →
  read_sections h (addr :: refs) = s :: read_sections h refs.
Proof. intros Hs. unfold read_sections. cbn [omap list_omap]. by rewrite Hs. Qed.

(** Objects built later do not change how older addresses read. *)
Lemma read_sections_app h extra refs :
  Forall (λ addr, (addr < length h)%nat) refs →
  read_sections (h ++ extra) refs = read_sections h refs.
Proof.
  induction 1 as [|addr refs Haddr _ IH]; [done|].
  destruct (lookup_lt_is_Some_2 h addr Haddr) as [s Hs].
  rewrite (read_sections_cons h addr refs s Hs).
  rewrite (read_sections_cons (h ++ extra) addr refs s);
    [by rewrite IH | by rewrite lookup_app_l].
Qed.

Lemma read_sections_allocated h l :
  read_sections (h ++ l) (seq (length h) (length l)) = l.
Proof.
  revert h. induction l as [|s l IH]; intros h; [done|].
  cbn [length seq].
  rewrite (read_sections_cons (h ++ s :: l) (length h) _ s)
    by (by apply list_lookup_middle).
  f_equal. specialize (IH (h ++ [s])).
  by rewrite <- app_assoc, length_app, Nat.add_1_r in IH.
Qed.

Lemma read_sections_snoc h refs s :
  Forall (λ addr, (addr < length h)%nat) refs →
  read_sections (h ++ [s]) (refs ++ [length h]) = read_sections h refs ++ [s].
Proof.
  intros Hrefs. unfold read_sections. rewrite omap_app.
  fold (read_sections (h ++ [s]) refs). rewrite read_sections_app by done.
  f_equal. cbn [omap list_omap]. by rewrite list_lookup_middle.
Qed.

(** A write into one object does not change how the others read. *)
Lemma read_sections_alter_ne h f addr refs :
  addr ∉ refs → read_sections (alter f addr h) refs = read_sections h refs.
Proof.
  induction refs as [|addr' refs IH]; [done|].
  intros [Hne Hnot]%not_elem_of_cons. unfold read_sections in *.
  cbn [omap list_omap]. rewrite list_lookup_alter_ne by done.
  by rewrite IH.
Qed.

Lemma read_sections_alter h f addr refs s :
  h !! addr = Some s → addr ∉ refs →
  read_sections (alter f addr h) (addr :: refs) = f s :: read_sections h refs.
Proof.
  intros Hs Hnot.
  rewrite (read_sections_cons _ addr refs (f s))
    by (by rewrite list_lookup_alter_eq, Hs).
  by rewrite read_sections_alter_ne.
Qed.

(** [map] in the memory agrees with [map] on the values, builds objects at
    new addresses only, and without a selection returns the very objects it
    was given. *)
Lemma map_fix_in_memory_spec selection r refs : ∀ h refs' h',
  Forall (λ addr, (addr < length h)%nat) refs → NoDup refs →
  map_fix_in_memory selection r h refs = (refs', h') →
  (∃ extra, h' = h ++ extra)
  ∧ read_sections h' refs'
    = map (fix_section selection r) (read_sections h refs)
  ∧ Forall (λ addr, (addr < length h')%nat) refs'
  ∧ NoDup refs'
  ∧ (∀ addr, addr ∈ refs' → addr ∈ refs ∨ (length h ≤ addr)%nat)
  ∧ (selection = None → refs' = refs ∧ h' = h).
Proof.
  induction refs as [|addr rest IH]; intros h refs' h' Hvalid Hdup Hmap.
  { cbn in Hmap. injection Hmap as <- <-. split_and!; try done.
    - exists []. by rewrite app_nil_r.
    - intros addr Hin. by left. }
  apply Forall_cons in Hvalid as [Haddr Hvalid].
  apply NoDup_cons in Hdup as [Hnotin Hdup].
  destruct (lookup_lt_is_Some_2 h addr Haddr) as [s Hs].
  cbn [map_fix_in_memory] in Hmap. rewrite Hs in Hmap.
  rewrite (read_sections_cons h addr rest s Hs). cbn [map].
  assert (∀ rest1 h1,
    map_fix_in_memory selection r h rest = (rest1, h1) →
    fix_section selection r s = s →
    refs' = addr :: rest1 → h' = h1 →
    (∃ extra, h' = h ++ extra)
    ∧ read_sections h' refs'
      = fix_section selection r s
        :: map (fix_section selection r) (read_sections h rest)
    ∧ Forall (λ addr, (addr < length h')%nat) refs'
    ∧ NoDup refs'
    ∧ (∀ addr0, addr0 ∈ refs' → addr0 ∈ addr :: rest ∨ (length h ≤ addr0)%nat)
    ∧ (selection = None → refs' = addr :: rest ∧ h' = h)) as Hmiss.
  { intros rest1 h1 Hrest Hsame -> ->.
    destruct (IH h rest1 h1 Hvalid Hdup Hrest)
      as ([extra ->] & Hread & Hvalid1 & Hdup1 & Hfrom & Hnone).
    split_and!.
    - by exists extra.
    - rewrite (read_sections_cons _ addr rest1 s)
        by (by rewrite lookup_app_l).
      by rewrite Hsame, Hread.
    - apply Forall_cons. split; [|done]. rewrite length_app. lia.
    - apply NoDup_cons. split; [|done].
      intros [Hin | Hge]%Hfrom; [done | lia].
    - intros addr0 [-> | [Hin | Hge]%Hfrom]%elem_of_cons.
      + left. by left.
      + left. by right.
      + by right.
    - intros Hsel. destruct (Hnone Hsel) as [-> Heq]. by split. }
  destruct selection as [sel|]; cbn [fix_section] in *.
  - destruct (includes (ArticleSection.content s) (text sel)) eqn:Hinc.
    + destruct (map_fix_in_memory (Some sel) r
                  (h ++ [ArticleSection.with_content
                           (default (ArticleSection.content s)
                              (truthy_content r)) s]) rest)
        as [rest1 h1] eqn:Hrest.
      injection Hmap as <- <-.
      assert (Forall (λ addr0, (addr0 < length
                (h ++ [ArticleSection.with_content
                         (default (ArticleSection.content s)
                            (truthy_content r)) s]))%nat) rest) as Hvalid'.
      { eapply Forall_impl; [exact Hvalid|].
        intros addr0 Hlt. cbn beta in Hlt. rewrite length_app. lia. }
      destruct (IH _ rest1 h1 Hvalid' Hdup Hrest)
        as ([extra ->] & Hread & Hvalid1 & Hdup1 & Hfrom & _).
      rewrite length_app in Hfrom. cbn [length] in Hfrom.
      split_and!.
      * exists (ArticleSection.with_content
                  (default (ArticleSection.content s) (truthy_content r)) s
                :: extra).
        by rewrite <- app_assoc.
      * rewrite (read_sections_cons _ (length h) rest1
                   (ArticleSection.with_content
                      (default (ArticleSection.content s)
                         (truthy_content r)) s)).
        -- rewrite Hread. by rewrite read_sections_app.
        -- rewrite <- app_assoc. apply list_lookup_middle. done.
      * apply Forall_cons. split; [|done]. rewrite !length_app. cbn. lia.
      * apply NoDup_cons. split; [|done].
        intros [Hin | Hge]%Hfrom; [|lia].
        rewrite Forall_forall in Hvalid. specialize (Hvalid _ Hin). lia.
      * intros addr0 [-> | [Hin | Hge]%Hfrom]%elem_of_cons.
        -- by right.
        -- left. by right.
        -- right. lia.
      * done.
    + destruct (map_fix_in_memory (Some sel) r h rest) as [rest1 h1] eqn:Hrest.
      injection Hmap as <- <-. by eapply Hmiss.
  - destruct (map_fix_in_memory None r h rest) as [rest1 h1] eqn:Hrest.
    injection Hmap as <- <-. by eapply Hmiss.
Qed.

Lemma well_formed_app h extra e :
  well_formed h e → well_formed (h ++ extra) e.
Proof.
  intros [Hvalid Hdup]. split; [|done].
  eapply Forall_impl; [exact Hvalid|].
  intros addr Hlt. cbn beta in Hlt. rewrite length_app. lia.
Qed.

Lemma well_formed_alter h f addr e :
  well_formed h e → well_formed (alter f addr h) e.
Proof. intros [Hvalid Hdup]. split; [|done]. by rewrite length_alter. Qed.

Lemma read_app h extra e : well_formed h e → read (h ++ extra) e = read h e.
Proof. intros [Hvalid _]. unfold read. by rewrite read_sections_app. Qed.

Lemma map_fix_section_None r (l : list ArticleSection.t) :
  map (fix_section None r) l = l.
Proof. induction l as [|s l IH]; [done|]. cbn [map fix_section]. by rewrite IH. Qed.

(** The computation of [newSections] in the memory agrees with the one on
    the values; it writes into an object in the one case
    [written_section] names, and builds new objects otherwise. *)
Lemma revise_sections_in_memory_spec h a selection editType r now :
  well_formed h a →
  match revise_sections_in_memory h a selection editType r now with
  | (Return refs', h') =>
      revised_sections (read h a) selection editType r now
      = Return (read_sections h' refs')
      ∧ Forall (λ addr, (addr < length h')%nat) refs' ∧ NoDup refs'
      ∧ match written_section a selection editType r with
        | Some (addr, c) => h' = alter (ArticleSection.with_content c) addr h
        | None => ∃ extra, h' = h ++ extra
        end
  | (Throw exn, h') =>
      revised_sections (read h a) selection editType r now = Throw exn
      ∧ h' = h
      ∧ written_section a selection editType r = None
  end.
Proof.
  intros [Hvalid Hdup].
  unfold revise_sections_in_memory, revised_sections, written_section.
  cbn [read RewikiArticle.sections RewikiArticle.with_sections_changeLog].
  destruct (map_fix_in_memory selection r h (section_refs a))
    as [refs1 h1] eqn:Hmap.
  destruct (map_fix_in_memory_spec _ _ _ _ _ _ Hvalid Hdup Hmap)
    as (Hext & Hread & Hvalid1 & Hdup1 & _ & Hnone).
  assert (∀ c, Forall (λ addr, (addr < length (h ++ [c]))%nat)
                 (section_refs a ++ [length h])
               ∧ NoDup (section_refs a ++ [length h])) as Hadd.
  { intros c. split.
    - apply Forall_app. split.
      + eapply Forall_impl; [exact Hvalid|].
        intros addr Hlt. cbn beta in Hlt. rewrite length_app. lia.
      + apply Forall_singleton. rewrite length_app. cbn. lia.
    - apply NoDup_app. split_and!; [done | | apply NoDup_singleton].
      intros addr Hin ->%list_elem_of_singleton.
      rewrite Forall_forall in Hvalid. specialize (Hvalid _ Hin). lia. }
  destruct editType; destruct (truthy_content r) as [c|];
    destruct selection as [sel|]; cbv beta iota zeta.
  - by rewrite Hread.
  - destruct (Hnone eq_refl) as [-> ->]. rewrite map_fix_section_None.
    destruct (section_refs a) as [|addr rest] eqn:Hrefs; [done|].
    apply Forall_cons in Hvalid as [Haddr Hvalid].
    apply NoDup_cons in Hdup as [Hnotin Hdup].
    destruct (lookup_lt_is_Some_2 h addr Haddr) as [s0 Hs0].
    rewrite (read_sections_cons h addr rest s0 Hs0).
    rewrite (read_sections_alter h _ addr rest s0 Hs0 Hnotin).
    split_and!; [done | | by apply NoDup_cons | done].
    rewrite length_alter. by apply Forall_cons.
  - by rewrite Hread.
  - by rewrite Hread.
  - destruct (Hadd (ArticleSection.mk (toString now) (js "New Section") c)).
    rewrite read_sections_snoc by done.
    split_and!; [done | done | done | by eexists].
  - destruct (Hadd (ArticleSection.mk (toString now) (js "New Section") c)).
    rewrite read_sections_snoc by done.
    split_and!; [done | done | done | by eexists].
  - by rewrite Hread.
  - by rewrite Hread.
Qed.

(** X26.  What a revision does to the articles the shell holds, where the
    section objects are shared.  The history array is not replaced and the
    storage is not written.  What is published reads as the computation on
    the values says.  The general "fix" with a text writes into the first
    section object of the article revised: an article of the history that
    does not hold that object reads as before, and one that holds it as its
    first section, such as the entry the article was shown from, reads with
    the new text there, in the memory only.  Every other revision builds
    new objects and leaves every article as it read. *)
Theorem revise_reaches_history a selection editType r now m :
  well_formed (objects m) a →
  let m' := revise a selection editType r now m in
  entries m' = entries m
  ∧ stored m' = stored m
  ∧ match apply_revision (read (objects m) a) selection editType r now with
    | Return updated =>
        ∃ obj, current m' = Some obj
               ∧ read (objects m') obj = updated
               ∧ well_formed (objects m') obj
    | Throw _ => current m' = current m ∧ objects m' = objects m
    end
  ∧ ∀ e, well_formed (objects m) e →
      well_formed (objects m') e
      ∧ match written_section a selection editType r with
        | Some (addr, c) =>
            (addr ∉ section_refs e →
             read (objects m') e = read (objects m) e)
            ∧ (∀ s0 rest,
                 head (section_refs e) = Some addr →
                 RewikiArticle.sections (read (objects m) e) = s0 :: rest →
                 RewikiArticle.sections (read (objects m') e)
                 = ArticleSection.with_content c s0 :: rest)
        | None => read (objects m') e = read (objects m) e
        end.
Proof.
  intros Hwf. cbv zeta.
  pose proof (revise_sections_in_memory_spec (objects m) a selection editType
                r now Hwf) as Hspec.
  unfold revise, apply_revision_in_memory, apply_revision.
  destruct (revise_sections_in_memory (objects m) a selection editType r now)
    as [[refs'|exn] h'].
  - destruct Hspec as (-> & Hvalid' & Hdup' & Hwritten).
    cbn [entries stored current objects]. split_and!; [done | done | |].
    + eexists. split; [done|]. split; [|by split]. done.
    + intros e He.
      destruct (written_section a selection editType r) as [[addr c]|].
      * subst h'. split; [by apply well_formed_alter|]. split.
        -- intros Hnot. unfold read. by rewrite read_sections_alter_ne.
        -- intros s0 rest Hhead Hsecs.
           cbn [read RewikiArticle.sections
                RewikiArticle.with_sections_changeLog] in *.
           pose proof He as [Hvalid Hdup].
           destruct (section_refs e) as [|addr' refs]; [done|].
           injection Hhead as ->.
           apply NoDup_cons in Hdup as [Hnotin _].
           apply Forall_cons in Hvalid as [Haddr _].
           destruct (lookup_lt_is_Some_2 _ _ Haddr) as [s Hs].
           rewrite (read_sections_cons _ _ _ _ Hs) in Hsecs.
           injection Hsecs as -> <-.
           by apply read_sections_alter.
      * destruct Hwritten as [extra ->].
        split; [by apply well_formed_app | by apply read_app].
  - destruct Hspec as (-> & -> & ->).
    cbn [entries stored current objects]. split_and!; try done.
Qed.

(** An article built by the generator reads as the value it is, at
    addresses of its own. *)
Lemma read_allocated h article :
  read (allocate h article).2 (allocate h article).1 = article
  ∧ well_formed (allocate h article).2 (allocate h article).1.
Proof.
  unfold allocate, read, well_formed. cbn [fst snd props section_refs].
  rewrite read_sections_allocated. split; [by destruct article|].
  split; [|apply NoDup_seq].
  apply Forall_seq. intros addr Haddr. rewrite length_app. lia.
Qed.

Lemma filter_read h (t : jsstring) (l : list ArticleObj) :
  read h <$> filter (λ e, RewikiArticle.topic (props e) ≠ t) l
  = filter (λ b, RewikiArticle.topic b ≠ t) (read h <$> l).
Proof.
  induction l as [|e l IH]; [done|].
  rewrite fmap_cons, !filter_cons.
  change (RewikiArticle.topic (read h e)) with (RewikiArticle.topic (props e)).
  case_decide; [by rewrite fmap_cons, IH | done].
Qed.

(** [loadFromHistory] shows the object of the history and leaves the
    history as it is. *)
Lemma revisit_shares i m item :
  entries m !! i = Some item →
  current (revisit i m) = Some item
  ∧ entries (revisit i m) = entries m
  ∧ objects (revisit i m) = objects m
  ∧ stored (revisit i m) = stored m.
Proof. intros Hitem. unfold revisit. by rewrite Hitem. Qed.

Context `{Platform}.

(** A successful search in the memory: the history and the storage are
    those [addToHistory] gives on the values, and the article shown is the
    very object at the head of the history. *)
Lemma remember_addToHistory article m :
  Forall (well_formed (objects m)) (entries m) →
  let m' := remember article m in
  let st' := addToHistory article
               {| history := history_in m; localStorage := stored m |} in
  history_in m' = history st'
  ∧ stored m' = localStorage st'
  ∧ Forall (well_formed (objects m')) (entries m')
  ∧ ∃ obj, current m' = Some obj
           ∧ head (entries m') = Some obj
           ∧ read (objects m') obj = article.
Proof.
  intros Hwf. cbv zeta.
  destruct (read_allocated (objects m) article) as [Hread Hobj].
  unfold remember, addToHistory, history_in.
  destruct (allocate (objects m) article) as [obj h'] eqn:Halloc.
  cbn [fst snd] in Hread, Hobj.
  assert (h' = objects m ++ RewikiArticle.sections article) as Hh'
    by (unfold allocate in Halloc; by injection Halloc as _ <-).
  cbn [objects current entries stored history localStorage].
  assert (read h' <$> take 10
            (obj :: filter (λ e, RewikiArticle.topic (props e)
                                 ≠ RewikiArticle.topic article) (entries m))
          = take 10 (article
                     :: filter (λ b, RewikiArticle.topic b
                                     ≠ RewikiArticle.topic article)
                          (read (objects m) <$> entries m))) as Hhistory.
  { rewrite fmap_take, fmap_cons, Hread, filter_read. do 3 f_equal.
    apply Forall_fmap_ext_1. eapply Forall_impl; [exact Hwf|].
    intros e He. cbn beta. rewrite Hh'. by apply read_app. }
  split_and!.
  - done.
  - by rewrite Hhistory.
  - apply Forall_take, Forall_cons. split; [done|].
    apply Forall_forall. intros e [_ He]%list_elem_of_filter.
    rewrite Forall_forall in Hwf. rewrite Hh'. by apply well_formed_app, Hwf.
  - by exists obj.
Qed.

End ArticleMemory.

Lemma revise_reaches_history_witness :
  let m' := revise rome_object None fix_ (accepted_with (Some (js "Roma.")))
              1700000050000 rome_memory in
  current rome_memory = Some rome_object
  ∧ history_in rome_memory = [sample_article]
  ∧ RewikiArticle.sections <$> history_in m'
    = [[ArticleSection.mk (js "s1") (js "History") (js "Roma.");
        sec_geography]]
  ∧ stored m' !! history_key = Some (sample_stringify [sample_article]).
Proof.
  cbv zeta.
  destruct (revise_reaches_history rome_object None fix_
              (accepted_with (Some (js "Roma."))) 1700000050000 rome_memory)
    as (Hentries & Hstored & _ & Hshared).
  - split; apply (bool_decide_unpack _); by vm_compute.
  - destruct (Hshared rome_object) as [_ [_ Hhead]].
    { split; apply (bool_decide_unpack _); by vm_compute. }
    split_and!.
    + vm_compute. reflexivity.
    + vm_compute. reflexivity.
    + unfold history_in. rewrite Hentries.
      change (entries rome_memory) with [rome_object].
      cbn [fmap list_fmap].
      by rewrite (Hhead sec_history [sec_geography] eq_refl eq_refl).
    + rewrite Hstored. vm_compute. reflexivity.
Defined.
